(** * BCSO clock-in bot: the session store, its button handler and the
      aggregation queries, embedded from [src/index.js] and from the second
      copy of the bot kept beside it ([src/unnamed/part_000]).

    The two files implement the same bot.  [index.js] is the compact one,
    [part_000] the defensive one (it fills in the break fields of older
    records and checks [clockOut] before comparing it).  Each gets a module
    of its own, [IndexJs] and [Part000], holding the functions under their
    source names; every property is stated for both.

    How the program is modelled:
    - a session is a record; the fields [addSession] writes once are typed
      ([id] and the three keys are strings, [clockIn] an integer), the five
      the handler mutates hold JavaScript values, so that [null], a missing
      field and [NaN] behave as they do in the source;
    - timestamps and durations are integers (milliseconds);
    - [data.sessions] is a list, [find] returns the index of the first match
      together with the element, and assigning to a field of the object
      found is an update of the list at that index;
    - a handler reads the file, mutates its copy and writes it back with
      [saveData]; what the next handler reads is what [JSON.stringify]
      wrote;
    - [Date.now()], the generated session id and the local calendar are
      inputs. *)

From Stdlib Require Import ZArith String Lia.
From stdpp Require Import base list strings sorting.
From stdpp Require Import pretty.

(** ** The fragment of JavaScript the bot relies on *)

Module JS.
Local Open Scope Z_scope.

(** Timestamps and durations are whole milliseconds, far below 2^53, so
    finite numbers are integers and arithmetic on them is exact.  [NaN] is
    kept because arithmetic on a missing field produces it. *)
Inductive number := NaN | Fin (z : Z).

(** The values a field of a session can hold: absent ([Undefined]), [null],
    a boolean or a number. *)
Inductive value := Undefined | Null | Bool (b : bool) | Num (n : number).

Definition ToNumber (v : value) : number :=
  match v with
  | Undefined => NaN
  | Null => Fin 0
  | Bool true => Fin 1
  | Bool false => Fin 0
  | Num n => n
  end.

Definition ToBoolean (v : value) : bool :=
  match v with
  | Undefined | Null => false
  | Bool b => b
  | Num NaN => false
  | Num (Fin z) => negb (z =? 0)
  end.

Definition typeof (v : value) : string :=
  match v with
  | Undefined => "undefined"
  | Null => "object"
  | Bool _ => "boolean"
  | Num _ => "number"
  end.

Definition nadd (a b : number) : number :=
  match a, b with
  | Fin x, Fin y => Fin (x + y)
  | _, _ => NaN
  end.

Definition nsub (a b : number) : number :=
  match a, b with
  | Fin x, Fin y => Fin (x - y)
  | _, _ => NaN
  end.

(** [a + b] and [a - b]; no operand is a string or an object here, so [+]
    is numeric addition. *)
Definition add (a b : value) : value := Num (nadd (ToNumber a) (ToNumber b)).
Definition sub (a b : value) : value := Num (nsub (ToNumber a) (ToNumber b)).

(** [Math.max(a, b)] *)
Definition Math_max (a b : value) : value :=
  match ToNumber a, ToNumber b with
  | Fin x, Fin y => Num (Fin (Z.max x y))
  | _, _ => Num NaN
  end.

(** [a < b] and [a >= b]: a comparison with [NaN] is false *)
Definition lt (a b : value) : bool :=
  match ToNumber a, ToNumber b with
  | Fin x, Fin y => x <? y
  | _, _ => false
  end.

Definition ge (a b : value) : bool :=
  match ToNumber a, ToNumber b with
  | Fin x, Fin y => y <=? x
  | _, _ => false
  end.

(** [v == null] *)
Definition eq_null (v : value) : bool :=
  match v with
  | Undefined | Null => true
  | _ => false
  end.

(** [a || b] *)
Definition or (a b : value) : value := if ToBoolean a then a else b.

(** What [JSON.parse(JSON.stringify(v))] gives back for a property value:
    [NaN] is written as [null]; an absent property stays absent. *)
Definition JSON_roundtrip (v : value) : value :=
  match v with
  | Num NaN => Null
  | _ => v
  end.

(** [Math.floor(a / k)] and [a % k] for a whole [k > 0].  [%] is the
    remainder of the truncated division: it takes the sign of [a]. *)
Definition floor_div (a : number) (k : Z) : number :=
  match a with
  | Fin x => Fin (x / k)
  | NaN => NaN
  end.

Definition rem (a : number) (k : Z) : number :=
  match a with
  | Fin x => Fin (Z.rem x k)
  | NaN => NaN
  end.

(** [`${a}`] for a number: decimal digits, a leading [-] below zero. *)
Definition ToString (a : number) : string :=
  match a with
  | Fin x => pretty x
  | NaN => "NaN"
  end.
End JS.

Notation "# z" := (JS.Num (JS.Fin z)) (at level 8, format "# z").

#[global] Instance number_eq_dec : EqDecision JS.number.
Proof. solve_decision. Defined.

#[global] Instance value_eq_dec : EqDecision JS.value.
Proof. solve_decision. Defined.

(** ** Sessions *)

(** A session object.  [id], the three key fields and [clockIn] are written
    once by [addSession]; the other five are mutated by the handler, and the
    three break fields are absent from records written before break tracking
    existed. *)
Record session := Session {
  id : string;
  guildId : string;
  userId : string;
  departmentId : string;
  clockIn : Z;
  clockOut : JS.value;
  duration : JS.value;
  onBreak : JS.value;
  breakStart : JS.value;
  totalBreak : JS.value;
}.

Definition set_clockOut (v : JS.value) (s : session) : session :=
  Session (id s) (guildId s) (userId s) (departmentId s) (clockIn s)
          v (duration s) (onBreak s) (breakStart s) (totalBreak s).
Definition set_duration (v : JS.value) (s : session) : session :=
  Session (id s) (guildId s) (userId s) (departmentId s) (clockIn s)
          (clockOut s) v (onBreak s) (breakStart s) (totalBreak s).
Definition set_onBreak (v : JS.value) (s : session) : session :=
  Session (id s) (guildId s) (userId s) (departmentId s) (clockIn s)
          (clockOut s) (duration s) v (breakStart s) (totalBreak s).
Definition set_breakStart (v : JS.value) (s : session) : session :=
  Session (id s) (guildId s) (userId s) (departmentId s) (clockIn s)
          (clockOut s) (duration s) (onBreak s) v (totalBreak s).
Definition set_totalBreak (v : JS.value) (s : session) : session :=
  Session (id s) (guildId s) (userId s) (departmentId s) (clockIn s)
          (clockOut s) (duration s) (onBreak s) (breakStart s) v.

(** The running handler holds the parsed document in [data] and mutates it in
    place; [file] is the content of [clockin-data.json], as the next
    [loadData] will read it. *)
Record store := Store {
  data : list session;
  file : list session;
}.

Definition stringify_parse (s : session) : session :=
  Session (id s) (guildId s) (userId s) (departmentId s) (clockIn s)
          (JS.JSON_roundtrip (clockOut s)) (JS.JSON_roundtrip (duration s))
          (JS.JSON_roundtrip (onBreak s)) (JS.JSON_roundtrip (breakStart s))
          (JS.JSON_roundtrip (totalBreak s)).

Definition loadData (f : list session) : store := Store f f.

Definition saveData (st : store) : store :=
  Store (data st) (stringify_parse <$> data st).

(** [{ duration, breakTotal }], the object [closeSession] returns *)
Module Result.
Record t := Make { duration : JS.value; breakTotal : JS.value }.
End Result.

(** [{ userId, total }], a line of the department leaderboard *)
Module UserTotal.
Record t := Make { userId : string; total : JS.value }.
End UserTotal.

(** ** Button presses and replies *)

(** The action part of a button's [customId] ([customId.split('_')]); the bot
    only creates [clockin_], [break_] and [clockout_] buttons, [other] stands
    for any other prefix. *)
Inductive button := clockin | break | clockout | other.

(** What a button press brings with it: the action and department taken from
    [customId], [interaction.guildId], [interaction.user.id], the value of
    [Date.now()], and the string that
    [Date.now() + '_' + Math.random().toString(36).slice(2)] evaluates to
    should [addSession] run. *)
Record interaction := Interaction {
  action : button;
  guild : string;
  user : string;
  dept : string;
  now : Z;
  fresh : string;
}.

(** The reply of [handleClockButton].  Rejections carry the text of the
    source; accepted actions carry the numbers their text is formatted from.
    The log embed sent afterwards ([sendLog]) changes no state and is left
    out. *)
Inductive reply :=
| Content (msg : string)
| ClockedIn
| BreakStarted
| BreakEnded (br : JS.value)
| ClockedOut (dur brk total : JS.value)
| NoReply
| Threw.

(** ** [Map] and [Array.prototype.sort] *)

(** A [Map] from user ids to totals.  Iteration follows insertion order and
    [set] on a present key keeps its place, so it is an association list. *)
Fixpoint Map_get (m : list (string * JS.value)) (k : string) : JS.value :=
  match m with
  | [] => JS.Undefined
  | (k', v) :: m' => if decide (k' = k) then v else Map_get m' k
  end.

Fixpoint Map_set (m : list (string * JS.value)) (k : string) (v : JS.value)
  : list (string * JS.value) :=
  match m with
  | [] => [(k, v)]
  | (k', v') :: m' =>
      if decide (k' = k) then (k, v) :: m' else (k', v') :: Map_set m' k v
  end.

(** [sort(compareFn)] is stable, and a comparator result of [NaN] counts as
    [+0].  For a consistent comparator the outcome is the one stable sorted
    arrangement whatever the engine's algorithm; it is computed here by
    insertion from the right, which keeps equal elements in their order. *)
Definition sort_le {A} (compareFn : A → A → JS.value) (x y : A) : bool :=
  match JS.ToNumber (compareFn x y) with
  | JS.Fin c => (c <=? 0)%Z
  | JS.NaN => true
  end.

Fixpoint sort_insert {A} (compareFn : A → A → JS.value) (x : A) (l : list A)
  : list A :=
  match l with
  | [] => [x]
  | y :: l' =>
      if sort_le compareFn x y then x :: y :: l'
      else y :: sort_insert compareFn x l'
  end.

Definition sort {A} (compareFn : A → A → JS.value) (l : list A) : list A :=
  foldr (sort_insert compareFn) [] l.

(** ** [src/index.js] *)

Module IndexJs.

Definition getActiveSession (d : list session) (guild user dept : string)
  : option (nat * session) :=
  list_find (λ s, guildId s = guild ∧ userId s = user ∧
                  departmentId s = dept ∧ JS.eq_null (clockOut s) = true) d.

Definition addSession (st : store) (guild user dept : string) (clockIn : Z)
    (fresh : string) : store :=
  saveData
    (Store (data st ++
            [Session fresh guild user dept clockIn
                     JS.Null JS.Null (JS.Bool false) JS.Null #0])
           (file st)).

Definition closeSession (st : store) (sessionId : string) (clockOut : Z)
  : option Result.t * store :=
  match list_find (λ x, id x = sessionId) (data st) with
  | None => (None, st)
  | Some (i, s) =>
      let s :=
        if JS.ToBoolean (onBreak s) && JS.ToBoolean (breakStart s)
        then set_totalBreak
               (JS.add (totalBreak s) (JS.sub #clockOut (breakStart s))) s
        else s in
      let s := set_clockOut #clockOut s in
      let s := set_duration
                 (JS.Math_max
                    (JS.sub (JS.sub #clockOut #(clockIn s)) (totalBreak s))
                    #0) s in
      let s := set_onBreak (JS.Bool false) s in
      let s := set_breakStart JS.Null s in
      let st := saveData (Store (<[i := s]> (data st)) (file st)) in
      (Some (Result.Make (duration s) (totalBreak s)), st)
  end.

Definition getUserTotalDuration (d : list session) (guild user : string)
  : JS.value :=
  foldl (λ a b, JS.add a (duration b)) #0
    (filter (λ s, guildId s = guild ∧ userId s = user ∧
                  JS.eq_null (duration s) = false) d).

Definition getDepartmentTotalInRange (d : list session)
    (guild dept : string) (startMs endMs : Z) : JS.value :=
  foldl (λ a b, JS.add a (duration b)) #0
    (filter (λ s, guildId s = guild ∧ departmentId s = dept ∧
                  JS.eq_null (duration s) = false ∧
                  JS.ge (clockOut s) #startMs = true ∧
                  JS.lt (clockOut s) #endMs = true) d).

Definition getDepartmentTotalsInRange (d : list session)
    (guild dept : string) (startMs endMs : Z) : list UserTotal.t :=
  let totals :=
    foldl (λ totals s,
             if decide (guildId s = guild ∧ departmentId s = dept ∧
                        JS.eq_null (duration s) = false ∧
                        JS.ge (clockOut s) #startMs = true ∧
                        JS.lt (clockOut s) #endMs = true)
             then Map_set totals (userId s)
                    (JS.add (JS.or (Map_get totals (userId s)) #0)
                            (duration s))
             else totals) [] d in
  sort (λ a b, JS.sub (UserTotal.total b) (UserTotal.total a))
       ((λ e, UserTotal.Make e.1 e.2) <$> totals).

Definition getUserTotalInRange (d : list session)
    (guild user : string) (startMs endMs : Z) : JS.value :=
  foldl (λ a b, JS.add a (duration b)) #0
    (filter (λ s, guildId s = guild ∧ userId s = user ∧
                  JS.eq_null (duration s) = false ∧
                  JS.ge (clockOut s) #startMs = true ∧
                  JS.lt (clockOut s) #endMs = true) d).

(** [handleClockButton]: from the file as it is to the reply and the file
    as the handler leaves it. *)
Definition handleClockButton (f : list session) (ev : interaction)
  : reply * list session :=
  let st := loadData f in
  match action ev with
  | clockin =>
      match getActiveSession (data st) (guild ev) (user ev) (dept ev) with
      | Some _ => (Content "Already clocked in!", file st)
      | None =>
          let st := addSession st (guild ev) (user ev) (dept ev) (now ev)
                      (fresh ev) in
          (ClockedIn, file st)
      end
  | a =>
      match getActiveSession (data st) (guild ev) (user ev) (dept ev) with
      | None => (Content "You are not clocked in.", file st)
      | Some (i, active) =>
          match a with
          | break =>
              if negb (JS.ToBoolean (onBreak active)) then
                let active := set_onBreak (JS.Bool true) active in
                let active := set_breakStart #(now ev) active in
                let st := saveData (Store (<[i := active]> (data st))
                                          (file st)) in
                (BreakStarted, file st)
              else
                let br := JS.sub #(now ev) (breakStart active) in
                let active := set_onBreak (JS.Bool false) active in
                let active := set_breakStart JS.Null active in
                let active :=
                  set_totalBreak (JS.add (totalBreak active) br) active in
                let st := saveData (Store (<[i := active]> (data st))
                                          (file st)) in
                (BreakEnded br, file st)
          | clockout =>
              match closeSession st (id active) (now ev) with
              | (Some result, st) =>
                  (ClockedOut (Result.duration result)
                              (Result.breakTotal result)
                              (getUserTotalDuration (data st) (guild ev)
                                                    (user ev)),
                   file st)
              | (None, st) => (Threw, file st)
              end
          | _ => (NoReply, file st)
          end
      end
  end.

Definition formatDuration (ms : JS.value) : string :=
  let s := JS.floor_div (JS.ToNumber ms) 1000 in
  let h := JS.floor_div s 3600 in
  let m := JS.floor_div (JS.rem s 3600) 60 in
  let sec := JS.rem s 60 in
  JS.ToString h +:+ "h " +:+ JS.ToString m +:+ "m " +:+
  JS.ToString sec +:+ "s".

End IndexJs.

(** ** [src/unnamed/part_000] *)

Module Part000.

Definition getActiveSession (d : list session)
    (guild user departmentId' : string) : option (nat * session) :=
  list_find (λ s, guildId s = guild ∧ userId s = user ∧
                  departmentId s = departmentId' ∧
                  JS.eq_null (clockOut s) = true) d.

Definition addSession (st : store) (guild user dept : string) (clockIn : Z)
    (fresh : string) : store :=
  saveData
    (Store (data st ++
            [Session fresh guild user dept clockIn
                     JS.Null JS.Null (JS.Bool false) JS.Null #0])
           (file st)).

(** The two [typeof] guards that give older sessions their break fields;
    [closeSession] and [handleClockButton] both start with them. *)
Definition fill_break_fields (s : session) : session :=
  let s := if bool_decide (JS.typeof (onBreak s) ≠ "boolean")
           then set_onBreak (JS.Bool false) s else s in
  let s := if bool_decide (JS.typeof (totalBreak s) ≠ "number")
           then set_totalBreak #0 s else s in
  s.

Definition closeSession (st : store) (sessionId : string) (clockOut : Z)
  : option Result.t * store :=
  match list_find (λ sess, id sess = sessionId) (data st) with
  | None => (None, st)
  | Some (i, s) =>
      let s := fill_break_fields s in
      let totalBreak' := JS.or (totalBreak s) #0 in
      let totalBreak' :=
        if JS.ToBoolean (onBreak s) && JS.ToBoolean (breakStart s)
        then JS.add totalBreak' (JS.sub #clockOut (breakStart s))
        else totalBreak' in
      let rawDuration := JS.sub #clockOut #(clockIn s) in
      let workedDuration :=
        JS.Math_max (JS.sub rawDuration totalBreak') #0 in
      let s := set_clockOut #clockOut s in
      let s := set_duration workedDuration s in
      let s := set_onBreak (JS.Bool false) s in
      let s := set_breakStart JS.Null s in
      let s := set_totalBreak totalBreak' s in
      let st := saveData (Store (<[i := s]> (data st)) (file st)) in
      (Some (Result.Make workedDuration totalBreak'), st)
  end.

Definition getUserTotalDuration (d : list session) (guild user : string)
  : JS.value :=
  foldl (λ sum s, JS.add sum (duration s)) #0
    (filter (λ s, guildId s = guild ∧ userId s = user ∧
                  JS.eq_null (duration s) = false) d).

Definition getDepartmentTotalsInRange (d : list session)
    (guild dept : string) (startMs endMs : Z) : list UserTotal.t :=
  let totals :=
    foldl (λ totals s,
             if bool_decide (guildId s ≠ guild) then totals
             else if bool_decide (departmentId s ≠ dept) then totals
             else if JS.eq_null (duration s) then totals
             else if JS.eq_null (clockOut s) then totals
             else
               let end_ := clockOut s in
               if JS.lt end_ #startMs || JS.ge end_ #endMs then totals
               else
                 let prev := JS.or (Map_get totals (userId s)) #0 in
                 Map_set totals (userId s) (JS.add prev (duration s)))
          [] d in
  sort (λ a b, JS.sub (UserTotal.total b) (UserTotal.total a))
       ((λ e, UserTotal.Make e.1 e.2) <$> totals).

Definition getDepartmentTotalInRange (d : list session)
    (guild dept : string) (startMs endMs : Z) : JS.value :=
  foldl (λ total s,
           if bool_decide (guildId s ≠ guild) then total
           else if bool_decide (departmentId s ≠ dept) then total
           else if JS.eq_null (duration s) then total
           else if JS.eq_null (clockOut s) then total
           else
             let end_ := clockOut s in
             if JS.lt end_ #startMs || JS.ge end_ #endMs then total
             else JS.add total (duration s))
        #0 d.

Definition getUserTotalInRange (d : list session)
    (guild user : string) (startMs endMs : Z) : JS.value :=
  foldl (λ total s,
           if bool_decide (guildId s ≠ guild) then total
           else if bool_decide (userId s ≠ user) then total
           else if JS.eq_null (duration s) then total
           else if JS.eq_null (clockOut s) then total
           else
             let end_ := clockOut s in
             if JS.lt end_ #startMs || JS.ge end_ #endMs then total
             else JS.add total (duration s))
        #0 d.

Definition handleClockButton (f : list session) (ev : interaction)
  : reply * list session :=
  match action ev with
  | other => (NoReply, f)
  | clockin =>
      let st := loadData f in
      match getActiveSession (data st) (guild ev) (user ev) (dept ev) with
      | Some _ =>
          (Content
             "You are already clocked in for this department. Please clock out first.",
           file st)
      | None =>
          let st := addSession st (guild ev) (user ev) (dept ev) (now ev)
                      (fresh ev) in
          (ClockedIn, file st)
      end
  | a =>
      let st := loadData f in
      match getActiveSession (data st) (guild ev) (user ev) (dept ev) with
      | None =>
          (Content "You are not currently clocked in for this department.",
           file st)
      | Some (i, active) =>
          let active := fill_break_fields active in
          let st := Store (<[i := active]> (data st)) (file st) in
          match a with
          | break =>
              if negb (JS.ToBoolean (onBreak active)) then
                let active := set_onBreak (JS.Bool true) active in
                let active := set_breakStart #(now ev) active in
                let st := saveData (Store (<[i := active]> (data st))
                                          (file st)) in
                (BreakStarted, file st)
              else
                let breakStart' := JS.or (breakStart active) #(now ev) in
                let breakDuration := JS.sub #(now ev) breakStart' in
                let active := set_onBreak (JS.Bool false) active in
                let active := set_breakStart JS.Null active in
                let active :=
                  set_totalBreak
                    (JS.add (JS.or (totalBreak active) #0) breakDuration)
                    active in
                let st := saveData (Store (<[i := active]> (data st))
                                          (file st)) in
                (BreakEnded breakDuration, file st)
          | _ =>
              match closeSession st (id active) (now ev) with
              | (None, st) =>
                  (Content "There was an error ending your session.",
                   file st)
              | (Some result, st) =>
                  (ClockedOut (Result.duration result)
                              (JS.or (Result.breakTotal result) #0)
                              (getUserTotalDuration (data st) (guild ev)
                                                    (user ev)),
                   file st)
              end
          end
      end
  end.

Definition formatDuration (ms : JS.value) : string :=
  let totalSeconds := JS.floor_div (JS.ToNumber ms) 1000 in
  let hours := JS.floor_div totalSeconds 3600 in
  let minutes := JS.floor_div (JS.rem totalSeconds 3600) 60 in
  let seconds := JS.rem totalSeconds 60 in
  let parts := [] in
  let parts :=
    if JS.ToBoolean (JS.Num hours)
    then parts ++ [JS.ToString hours +:+ "h"] else parts in
  let parts :=
    if JS.ToBoolean (JS.Num minutes)
    then parts ++ [JS.ToString minutes +:+ "m"] else parts in
  let parts :=
    if JS.ToBoolean (JS.Num seconds) || (length parts =? 0)%nat
    then parts ++ [JS.ToString seconds +:+ "s"] else parts in
  String.concat " " parts.

End Part000.

(** ** Calendar windows *)

(** The local-time part of [Date] the range helpers use.  A [Date] is its
    epoch time in milliseconds; the four getters read the local calendar
    fields of an instant and [new_Date year month date] is
    [new Date(year, month, date).getTime()], with the engine's normalisation
    of out-of-range fields.  All of it depends on the host's time zone, so it
    stays an interface. *)
Class LocalTime := {
  getFullYear : Z → Z;
  getMonth : Z → Z;
  getDate : Z → Z;
  getDay : Z → Z;
  new_Date : Z → Z → Z → Z;
}.

Record range := Range { startMs : Z; endMs : Z }.

Section Calendar.
Context `{LocalTime}.
Local Open Scope Z_scope.

(** [now] is the instant [new Date()] reads. *)
Definition getCurrentMonthRange (now : Z) : range :=
  let start := new_Date (getFullYear now) (getMonth now) 1 in
  let end_ := new_Date (getFullYear now) (getMonth now + 1) 1 in
  Range start end_.

Definition getCurrentWeekRange (now : Z) : range :=
  let day := getDay now in
  let sunday := new_Date (getFullYear now) (getMonth now)
                         (getDate now - day) in
  let next := new_Date (getFullYear sunday) (getMonth sunday)
                       (getDate sunday + 7) in
  Range sunday next.

Definition getWeekRangeForOffset (now : Z) (offset : Z) : range :=
  let r := getCurrentWeekRange now in
  let weekMs := 7 * 24 * 60 * 60 * 1000 in
  Range (startMs r - offset * weekMs) (endMs r - offset * weekMs).
End Calendar.

(** ** Vocabulary of the specification *)

(** An open session of the key: all three ids match and [clockOut == null]. *)
Definition open_for (guild user dept : string) (s : session) : Prop :=
  guildId s = guild ∧ userId s = user ∧ departmentId s = dept ∧
  JS.eq_null (clockOut s) = true.

#[global] Instance open_for_dec guild user dept s :
  Decision (open_for guild user dept s).
Proof. unfold open_for. apply _. Defined.

Definition open_count (guild user dept : string) (f : list session) : nat :=
  length (filter (open_for guild user dept) f).

(** A document as [loadData] returns it: JSON has no [NaN], so writing it out
    and reading it back changes nothing. *)
Definition loaded (f : list session) : Prop := stringify_parse <$> f = f.

(** The session object [addSession] pushes for a button press. *)
Definition new_session (ev : interaction) : session :=
  Session (fresh ev) (guild ev) (user ev) (dept ev) (now ev)
          JS.Null JS.Null (JS.Bool false) JS.Null #0.

(** The files a sequence of button presses goes through, the first one
    included. *)
Fixpoint states (h : list session → interaction → reply * list session)
    (f : list session) (evs : list interaction) : list (list session) :=
  match evs with
  | [] => [f]
  | ev :: evs' => f :: states h (h f ev).2 evs'
  end.

(** Whether the session reads back as open once written to the file. *)
Definition stored_open (s : session) : bool :=
  JS.eq_null (JS.JSON_roundtrip (clockOut s)).

(** [s'] is a later version of [s] that is not open unless [s] was. *)
Definition never_reopens (s s' : session) : Prop :=
  guildId s' = guildId s ∧ userId s' = userId s ∧
  departmentId s' = departmentId s ∧
  (stored_open s' = true → stored_open s = true).

Definition stored_count (guild user dept : string) (f : list session) : nat :=
  length (filter (λ s, guildId s = guild ∧ userId s = user ∧
                       departmentId s = dept ∧ stored_open s = true) f).

(** A press that breaks the rules of the state machine: a clock-in while the
    key has an open session, a break or clock-out while it has none. *)
Definition out_of_turn (f : list session) (ev : interaction) : Prop :=
  match action ev with
  | clockin => Exists (open_for (guild ev) (user ev) (dept ev)) f
  | break | clockout => ¬ Exists (open_for (guild ev) (user ev) (dept ev)) f
  | other => False
  end.

(** A session whose break fields have the types the data model gives them:
    [onBreak] a boolean, [totalBreak] a number, [breakStart] a number or
    [null]. *)
Definition modern (s : session) : bool :=
  match onBreak s, totalBreak s, breakStart s with
  | JS.Bool _, #_, (JS.Null | #_) => true
  | _, _, _ => false
  end.

(** The start of the break in progress, as the specification words it:
    [onBreak] is true and [breakStart] is not [null]. *)
Definition break_in_progress (s : session) : option Z :=
  match onBreak s, breakStart s with
  | JS.Bool true, #b => Some b
  | _, _ => None
  end.

Definition totalBreak_ms (s : session) : Z :=
  match totalBreak s with #tb => tb | _ => 0 end.

(** [close] in the specification's words: fold the break in progress into
    [totalBreak] as [clockOutTs - breakStart], floor the worked time at 0,
    store the session closed and off break. *)
Definition spec_close (clockOutTs : Z) (s : session) : session :=
  let totalBreak' :=
    match break_in_progress s with
    | Some b => (totalBreak_ms s + (clockOutTs - b))%Z
    | None => totalBreak_ms s
    end in
  Session (id s) (guildId s) (userId s) (departmentId s) (clockIn s)
          #clockOutTs #(Z.max (clockOutTs - clockIn s - totalBreak') 0)
          (JS.Bool false) JS.Null #totalBreak'.

(** A record read with the defaults of the specification: [onBreak] that is
    not a boolean counts as [false], [totalBreak] that is not a number as
    0. *)
Definition with_defaults (s : session) : session :=
  let s := match onBreak s with
           | JS.Bool _ => s
           | _ => set_onBreak (JS.Bool false) s
           end in
  match totalBreak s with
  | JS.Num _ => s
  | _ => set_totalBreak #0 s
  end.

(** The bound of the data model on a closed session, read literally: for a
    session with well-typed break fields, what [close] stores has
    [totalBreak <= clockOut - clockIn]. *)
Definition break_bounded_on_close
    (close : store → string → Z → option Result.t * store) : Prop :=
  ∀ f sid t i s,
    list_find (λ x, id x = sid) f = Some (i, s) → modern s = true →
    ∃ s' tb,
      file (close (loadData f) sid t).2 !! i = Some s' ∧
      totalBreak s' = #tb ∧ (tb ≤ t - clockIn s')%Z.

(** [close] being safe to repeat, read literally: once a call has closed the
    session, a second call on the same id with a later timestamp is refused
    or leaves the file as the first call wrote it. *)
Definition close_idempotent_safe
    (close : store → string → Z → option Result.t * store) : Prop :=
  ∀ f sid t1 t2,
    (t1 ≤ t2)%Z →
    let first := close (loadData f) sid t1 in
    first.1 ≠ None →
    let second := close (loadData (file first.2)) sid t2 in
    second.1 = None ∨ file second.2 = file first.2.

(** *** Aggregation *)

(** The worked milliseconds a session adds to a sum. *)
Definition duration_ms (s : session) : Z :=
  match JS.ToNumber (duration s) with
  | JS.Fin d => d
  | JS.NaN => 0%Z
  end.

Definition total_ms (l : list session) : Z :=
  foldr (λ s acc, (duration_ms s + acc)%Z) 0%Z l.

(** The typing the data model gives a stored session: [duration] is [null]
    (or absent) while open, and a number once closed, and then [clockOut] is
    a number too ([duration != null] only if [clockOut != null]). *)
Definition consistent (s : session) : Prop :=
  match duration s with
  | JS.Undefined | JS.Null => True
  | #_ => match clockOut s with #_ => True | _ => False end
  | _ => False
  end.

(** Closed inside the half-open window: [duration] is not [null] and
    [startMs <= clockOut < endMs]. *)
Definition closed_in (startMs endMs : Z) (s : session) : Prop :=
  JS.eq_null (duration s) = false ∧
  match clockOut s with
  | #c => (startMs ≤ c < endMs)%Z
  | _ => False
  end.

#[global] Instance closed_in_dec startMs endMs s :
  Decision (closed_in startMs endMs s).
Proof.
  unfold closed_in. destruct (clockOut s) as [| | |[|c]]; apply _.
Defined.

(** The sessions a windowed query is specified to count: those of the guild
    and of the user (or department) [x], closed inside the window. *)
Definition counted (who : session → string) (guild x : string)
    (startMs endMs : Z) (s : session) : Prop :=
  guildId s = guild ∧ who s = x ∧ closed_in startMs endMs s.

#[global] Instance counted_dec who guild x startMs endMs s :
  Decision (counted who guild x startMs endMs s).
Proof. unfold counted. apply _. Defined.

(** The test [index.js] applies to a session, in its [filter] callbacks and
    in its loop. *)
Definition in_index_js (who : session → string) (guild x : string)
    (startMs endMs : Z) (s : session) : Prop :=
  guildId s = guild ∧ who s = x ∧ JS.eq_null (duration s) = false ∧
  JS.ge (clockOut s) #startMs = true ∧ JS.lt (clockOut s) #endMs = true.

#[global] Instance in_index_js_dec who guild x startMs endMs s :
  Decision (in_index_js who guild x startMs endMs s).
Proof. unfold in_index_js. apply _. Defined.

(** The test [part_000] applies: a session gets past all five [continue]s. *)
Definition in_part_000 (who : session → string) (guild x : string)
    (startMs endMs : Z) (s : session) : Prop :=
  guildId s = guild ∧ who s = x ∧ JS.eq_null (duration s) = false ∧
  JS.eq_null (clockOut s) = false ∧
  JS.lt (clockOut s) #startMs || JS.ge (clockOut s) #endMs = false.

#[global] Instance in_part_000_dec who guild x startMs endMs s :
  Decision (in_part_000 who guild x startMs endMs s).
Proof. unfold in_part_000. apply _. Defined.

(** The loop that fills the [totals] map, for any test [sel]. *)
Definition tally (sel : session → Prop) `{!∀ s, Decision (sel s)}
    (d : list session) : list (string * JS.value) :=
  foldl (λ totals s,
           if decide (sel s)
           then Map_set totals (userId s)
                  (JS.add (JS.or (Map_get totals (userId s)) #0) (duration s))
           else totals) [] d.

Definition value_ms (v : JS.value) : Z :=
  match v with #z => z | _ => 0%Z end.

Definition row_ms (r : UserTotal.t) : Z := value_ms (UserTotal.total r).

(** [rows] is the leaderboard of the specification for the department and
    window: one row per user with a session counted there, the row's total
    the sum of those sessions' durations, rows in descending order of
    total. *)
Definition leaderboard (d : list session) (guild dept : string)
    (startMs endMs : Z) (rows : list UserTotal.t) : Prop :=
  NoDup (UserTotal.userId <$> rows) ∧
  (∀ u, u ∈ UserTotal.userId <$> rows ↔
        ∃ s, s ∈ d ∧ counted departmentId guild dept startMs endMs s ∧
             userId s = u) ∧
  (∀ r, r ∈ rows →
        UserTotal.total r =
        #(total_ms
            (filter (λ s, counted departmentId guild dept startMs endMs s ∧
                          userId s = UserTotal.userId r) d))) ∧
  StronglySorted (λ r1 r2, (row_ms r2 ≤ row_ms r1)%Z) rows.

(** *** The life of a session *)

(** The fields a session keeps for life. *)
Definition same_identity (s s' : session) : Prop :=
  id s' = id s ∧ guildId s' = guildId s ∧ userId s' = userId s ∧
  departmentId s' = departmentId s ∧ clockIn s' = clockIn s.

(** Break fields as the handler itself leaves them: a session on break has
    the (non-zero) time its break started, a session off break has none. *)
Definition well_formed (s : session) : bool :=
  match onBreak s, totalBreak s, breakStart s with
  | JS.Bool true, #_, #b => negb (b =? 0)%Z
  | JS.Bool false, #_, JS.Null => true
  | _, _, _ => false
  end.

(** The break row of the state machine: a session off break goes on break at
    [now]; a session on break comes back, its break added to
    [totalBreak]. *)
Definition spec_break (now : Z) (s : session) : session :=
  match break_in_progress s with
  | Some b =>
      Session (id s) (guildId s) (userId s) (departmentId s) (clockIn s)
              (clockOut s) (duration s) (JS.Bool false) JS.Null
              #(totalBreak_ms s + (now - b))
  | None =>
      Session (id s) (guildId s) (userId s) (departmentId s) (clockIn s)
              (clockOut s) (duration s) (JS.Bool true) #now (totalBreak s)
  end.

(** The state machine of the specification as one step on the file. *)
Definition machine (f : list session) (ev : interaction) : list session :=
  match action ev, list_find (open_for (guild ev) (user ev) (dept ev)) f with
  | clockin, None => f ++ [new_session ev]
  | break, Some (i, a) => <[i:=spec_break (now ev) a]> f
  | clockout, Some (i, a) => <[i:=spec_close (now ev) a]> f
  | _, _ => f
  end.

(** Time accounting of a session, given that no press so far came after
    [T]: break time is never negative and never more than the time elapsed;
    once closed, worked time and break time add up to the time between
    clock-in and clock-out. *)
Definition sound (T : Z) (s : session) : Prop :=
  well_formed s = true ∧ (0 ≤ totalBreak_ms s)%Z ∧
  match clockOut s with
  | JS.Null =>
      duration s = JS.Null ∧ (clockIn s ≤ T)%Z ∧
      match break_in_progress s with
      | Some b => (clockIn s ≤ b ≤ T)%Z ∧ (totalBreak_ms s ≤ b - clockIn s)%Z
      | None => (totalBreak_ms s ≤ T - clockIn s)%Z
      end
  | #c =>
      onBreak s = JS.Bool false ∧
      ∃ dur, duration s = #dur ∧ (0 ≤ dur)%Z ∧
             (dur + totalBreak_ms s = c - clockIn s)%Z
  | _ => False
  end.

(** A run of presses in time order from [T] on, none at the epoch itself,
    each bringing an id no session has yet. *)
Fixpoint in_order (T : Z) (used : list string) (evs : list interaction)
  : Prop :=
  match evs with
  | [] => True
  | ev :: evs' =>
      (T ≤ now ev)%Z ∧ (now ev ≠ 0%Z) ∧ (fresh ev ∉ used) ∧
      in_order (now ev) (fresh ev :: used) evs'
  end.

(** [s'] is [s] after a break press or after its break fields were filled
    in: same session, [clockOut] and [duration] as they were. *)
Definition touched (s s' : session) : Prop :=
  same_identity s s' ∧ clockOut s' = clockOut s ∧ duration s' = duration s.

(** [s'] is [s] as [closeSession] leaves it in memory at time [t]. *)
Definition closed_at (t : Z) (s s' : session) : Prop :=
  same_identity s s' ∧ clockOut s' = #t ∧ ∃ n, duration s' = JS.Num n.

(** What a press may do to the file: nothing, append the new session of a
    clock-in, or rewrite the open session [a] of its key and, on clock-out,
    the first session carrying [a]'s id. *)
Definition framed (f : list session) (ev : interaction) (f' : list session)
  : Prop :=
  f' = f ∨
  (action ev = clockin ∧
   list_find (open_for (guild ev) (user ev) (dept ev)) f = None ∧
   f' = stringify_parse <$> (f ++ [new_session ev])) ∨
  (∃ i a a' j s s',
     list_find (open_for (guild ev) (user ev) (dept ev)) f = Some (i, a) ∧
     touched a a' ∧ (<[i:=a']> f) !! j = Some s ∧ id s = id a ∧
     (touched s s' ∨ closed_at (now ev) s s') ∧
     f' = stringify_parse <$> <[j:=s']> (<[i:=a']> f)).

(** One field of [part_000]'s display: left out when it is zero. *)
Definition unit_part (n : Z) (unit : string) : list string :=
  if decide (n = 0%Z) then [] else [pretty n +:+ unit].

(** ** A host on UTC *)

(** [Date] on a host whose local time is UTC, after the abstract operations
    of the language definition ([Day], [WeekDay], [MakeDay], ...).  Days are
    counted from 1 January 1970 in the proleptic Gregorian calendar;
    [days_from_civil] and [civil_from_days] convert between a day number and
    a date (month 1..12) in closed form.  [new Date(year, month, date)]
    reads a year 0..99 as 1900 + year, carries months outside 0..11 into the
    year and counts [date] on from the first of the month.  Time values
    stay within the range of [Date], 8.64e15 ms either side of 1970. *)
Module UTC.
Local Open Scope Z_scope.

Definition msPerDay : Z := 86400000.

Definition Day (t : Z) : Z := t / msPerDay.

Definition WeekDay (t : Z) : Z := (Day t + 4) mod 7.

Definition days_from_civil (y m d : Z) : Z :=
  let y := if m <=? 2 then y - 1 else y in
  let era := y / 400 in
  let yoe := y - era * 400 in
  let mp := if 2 <? m then m - 3 else m + 9 in
  let doy := (153 * mp + 2) / 5 + d - 1 in
  let doe := yoe * 365 + yoe / 4 - yoe / 100 + doy in
  era * 146097 + doe - 719468.

Definition civil_from_days (z : Z) : Z * Z * Z :=
  let z := z + 719468 in
  let era := z / 146097 in
  let doe := z - era * 146097 in
  let yoe := (doe - doe / 1460 + doe / 36524 - doe / 146096) / 365 in
  let doy := doe - (365 * yoe + yoe / 4 - yoe / 100) in
  let mp := (5 * doy + 2) / 153 in
  let d := doy - (153 * mp + 2) / 5 + 1 in
  let m := if mp <? 10 then mp + 3 else mp - 9 in
  (if m <=? 2 then yoe + era * 400 + 1 else yoe + era * 400, m, d).

Definition YearFromTime (t : Z) : Z := (civil_from_days (Day t)).1.1.
Definition MonthFromTime (t : Z) : Z := (civil_from_days (Day t)).1.2 - 1.
Definition DateFromTime (t : Z) : Z := (civil_from_days (Day t)).2.

Definition MakeFullYear (year : Z) : Z :=
  if (0 <=? year) && (year <=? 99) then 1900 + year else year.

Definition MakeDay (year month date : Z) : Z :=
  days_from_civil (year + month / 12) (month mod 12 + 1) 1 + date - 1.

Definition new_Date (year month date : Z) : Z :=
  MakeDay (MakeFullYear year) month date * msPerDay.

End UTC.

Definition utc : LocalTime :=
  {| getFullYear := UTC.YearFromTime; getMonth := UTC.MonthFromTime;
     getDate := UTC.DateFromTime; getDay := UTC.WeekDay;
     new_Date := UTC.new_Date |}.

(** The eight weekly figures of [handleMyHours] (this week and the seven
    before it), as [getUserTotalInRange] returns them and before
    [formatHours] renders them.  Every round of the loop calls
    [getWeekRangeForOffset], which reads the clock again: [clock i] is the
    instant round [i] reads. *)
Definition handleMyHours_weeks `{LocalTime}
    (getUserTotalInRange :
       list session → string → string → Z → Z → JS.value)
    (d : list session) (guildId userId : string) (clock : nat → Z)
  : list JS.value :=
  (λ offset : nat,
     let r := getWeekRangeForOffset (clock offset) (Z.of_nat offset) in
     getUserTotalInRange d guildId userId (startMs r) (endMs r))
  <$> seq 0 8.

(** * Properties *)

(** ** Writing and reading back *)

Lemma JSON_roundtrip_idemp v :
  JS.JSON_roundtrip (JS.JSON_roundtrip v) = JS.JSON_roundtrip v.
Proof. by destruct v as [| | |[|]]. Qed.

Lemma stringify_parse_idemp s :
  stringify_parse (stringify_parse s) = stringify_parse s.
Proof.
  unfold stringify_parse; simpl. by rewrite !JSON_roundtrip_idemp.
Qed.

Lemma saved_is_loaded (d : list session) : loaded (stringify_parse <$> d).
Proof.
  unfold loaded. rewrite <- list_fmap_compose.
  apply list_fmap_ext. intros _ s _. apply stringify_parse_idemp.
Qed.

Lemma loaded_elem f s : loaded f → s ∈ f → stringify_parse s = s.
Proof.
  unfold loaded. intros Hf [i Hi]%list_elem_of_lookup.
  apply (f_equal (λ l, l !! i)) in Hf.
  rewrite list_lookup_fmap, Hi in Hf. simpl in Hf. congruence.
Qed.

Lemma loaded_stored_open f s :
  loaded f → s ∈ f → stored_open s = JS.eq_null (clockOut s).
Proof.
  intros Hf Hs. pose proof (loaded_elem _ _ Hf Hs) as E.
  unfold stored_open. apply (f_equal clockOut) in E. simpl in E.
  by rewrite E.
Qed.

Lemma filter_ext_elem {A} (P Q : A → Prop) `{!∀ x, Decision (P x)}
    `{!∀ x, Decision (Q x)} (l : list A) :
  (∀ x, x ∈ l → P x ↔ Q x) → filter P l = filter Q l.
Proof.
  induction l as [|x l IH]; intros HPQ; [done|].
  rewrite !filter_cons.
  rewrite IH by (intros y Hy; apply HPQ; by right).
  destruct (decide (P x)) as [HP|HP], (decide (Q x)) as [HQ|HQ]; try done;
    exfalso; apply (HPQ x) in HP || apply (HPQ x) in HQ; try done; by left.
Qed.

Lemma loaded_stored_count guild user dept f :
  loaded f → stored_count guild user dept f = open_count guild user dept f.
Proof.
  intros Hf. unfold stored_count, open_count. f_equal.
  apply filter_ext_elem. intros s Hs. unfold open_for.
  by rewrite (loaded_stored_open f s Hf Hs).
Qed.

(** ** What a button press can do to the file *)

Lemma never_reopens_refl s : never_reopens s s.
Proof. by unfold never_reopens. Qed.

Lemma never_reopens_trans s1 s2 s3 :
  never_reopens s1 s2 → never_reopens s2 s3 → never_reopens s1 s3.
Proof.
  unfold never_reopens. intros (?&?&?&?) (?&?&?&?).
  split_and!; [congruence..|auto].
Qed.

Lemma never_reopens_stringify s : never_reopens s (stringify_parse s).
Proof.
  unfold never_reopens, stored_open; simpl. split_and!; [done..|].
  by rewrite JSON_roundtrip_idemp.
Qed.

Lemma never_reopens_close s t : never_reopens s (set_clockOut #t s).
Proof. unfold never_reopens, stored_open; simpl. by split_and!. Qed.

Lemma never_reopens_duration s v : never_reopens s (set_duration v s).
Proof. by unfold never_reopens. Qed.

Lemma never_reopens_onBreak s v : never_reopens s (set_onBreak v s).
Proof. by unfold never_reopens. Qed.

Lemma never_reopens_breakStart s v : never_reopens s (set_breakStart v s).
Proof. by unfold never_reopens. Qed.

Lemma never_reopens_totalBreak s v : never_reopens s (set_totalBreak v s).
Proof. by unfold never_reopens. Qed.

Lemma never_reopens_fill s : never_reopens s (Part000.fill_break_fields s).
Proof.
  unfold Part000.fill_break_fields.
  repeat case_bool_decide; by unfold never_reopens.
Qed.

Create HintDb reopen.
#[local] Hint Resolve never_reopens_refl never_reopens_stringify
  never_reopens_close never_reopens_duration never_reopens_onBreak
  never_reopens_breakStart never_reopens_totalBreak never_reopens_fill
  : reopen.

Ltac reopen_chain :=
  repeat first
    [ apply never_reopens_refl
    | eapply never_reopens_trans;
      [| first [ apply never_reopens_close | apply never_reopens_duration
               | apply never_reopens_onBreak | apply never_reopens_breakStart
               | apply never_reopens_totalBreak | apply never_reopens_fill
               | apply never_reopens_stringify ] ] ].

Lemma Forall2_never_reopens_refl f : Forall2 never_reopens f f.
Proof. induction f; constructor; auto with reopen. Qed.

Lemma Forall2_never_reopens_insert f d i s s' :
  Forall2 never_reopens f d → d !! i = Some s → never_reopens s s' →
  Forall2 never_reopens f (<[i:=s']> d).
Proof.
  intros HF Hi Hs.
  destruct (Forall2_lookup_r _ _ _ _ _ HF Hi) as (x & Hx & Hxs).
  rewrite <- (list_insert_id f i x Hx).
  apply Forall2_insert; [done|]. by eapply never_reopens_trans.
Qed.

Lemma Forall2_never_reopens_saved f d :
  Forall2 never_reopens f d → Forall2 never_reopens f (stringify_parse <$> d).
Proof.
  intros HF. apply Forall2_fmap_r.
  eapply Forall2_impl; [exact HF|]. intros x y Hxy.
  eapply never_reopens_trans; [exact Hxy|apply never_reopens_stringify].
Qed.

Lemma stored_count_mono guild user dept f f' :
  Forall2 never_reopens f f' →
  stored_count guild user dept f' ≤ stored_count guild user dept f.
Proof.
  unfold stored_count. induction 1 as [|s s' f f' (Hg&Hu&Hd&Ho) _ IH];
    [done|].
  rewrite !filter_cons. repeat case_decide; simpl; try lia.
  exfalso. destruct_and!. match goal with H : ¬ _ |- _ => apply H end.
  split_and!; [congruence..|auto].
Qed.

Lemma IndexJs_handle_shape f ev :
  let f' := (IndexJs.handleClockButton f ev).2 in
  f' = f ∨
  (∃ d, Forall2 never_reopens f d ∧ f' = stringify_parse <$> d) ∨
  (action ev = clockin ∧
   IndexJs.getActiveSession f (guild ev) (user ev) (dept ev) = None ∧
   f' = stringify_parse <$> (f ++ [new_session ev])).
Proof.
  unfold IndexJs.handleClockButton, loadData; simpl.
  destruct (action ev) eqn:Ha; simpl;
    destruct (IndexJs.getActiveSession f _ _ _) as [[i a]|] eqn:Hact;
    simpl; auto.
  - (* break *)
    apply list_find_Some in Hact as (Hi & _ & _).
    right; left. destruct (negb _); simpl; eexists; (split; [|done]);
      (eapply Forall2_never_reopens_insert;
       [apply Forall2_never_reopens_refl|exact Hi|reopen_chain]).
  - (* clockout *)
    unfold IndexJs.closeSession; simpl.
    destruct (list_find _ f) as [[j s]|] eqn:Hfind; simpl; auto.
    apply list_find_Some in Hfind as (Hj & _ & _).
    right; left. eexists; split; [|done].
    eapply Forall2_never_reopens_insert;
      [apply Forall2_never_reopens_refl|exact Hj|].
    destruct (_ && _); reopen_chain.
Qed.

Lemma Part000_handle_shape f ev :
  let f' := (Part000.handleClockButton f ev).2 in
  f' = f ∨
  (∃ d, Forall2 never_reopens f d ∧ f' = stringify_parse <$> d) ∨
  (action ev = clockin ∧
   Part000.getActiveSession f (guild ev) (user ev) (dept ev) = None ∧
   f' = stringify_parse <$> (f ++ [new_session ev])).
Proof.
  unfold Part000.handleClockButton, loadData; simpl.
  destruct (action ev) eqn:Ha; simpl; auto;
    destruct (Part000.getActiveSession f _ _ _) as [[i a]|] eqn:Hact;
    simpl; auto.
  - (* break *)
    apply list_find_Some in Hact as (Hi & _ & _).
    assert (Hlt : i < length f) by (by eapply lookup_lt_Some).
    right; left. destruct (negb _); simpl; eexists; (split; [|done]);
      rewrite list_insert_insert_eq;
      (eapply Forall2_never_reopens_insert;
       [apply Forall2_never_reopens_refl|exact Hi|reopen_chain]).
  - (* clockout *)
    apply list_find_Some in Hact as (Hi & _ & _).
    unfold Part000.closeSession; simpl.
    destruct (list_find _ (<[i:=_]> f)) as [[j s]|] eqn:Hfind; simpl; auto.
    apply list_find_Some in Hfind as (Hj & _ & _).
    right; left. eexists; split; [|done].
    eapply Forall2_never_reopens_insert; [|exact Hj|reopen_chain].
    eapply Forall2_never_reopens_insert;
      [apply Forall2_never_reopens_refl|exact Hi|reopen_chain].
Qed.

Lemma open_count_app guild user dept f s :
  open_count guild user dept (f ++ [s]) =
  open_count guild user dept f +
  (if decide (open_for guild user dept s) then 1 else 0).
Proof.
  unfold open_count. rewrite filter_app, length_app. f_equal.
  rewrite filter_cons, filter_nil. by case_decide.
Qed.

Lemma no_active_open_count f guild user dept :
  list_find (open_for guild user dept) f = None →
  open_count guild user dept f = 0.
Proof.
  intros HF%list_find_None. unfold open_count.
  induction HF as [|s f Hs _ IH]; [done|].
  by rewrite filter_cons_False.
Qed.

(** Either handler leaves a loaded file loaded, and never raises the number
    of open sessions of a key above what it was, unless it was zero. *)
Lemma step_open_count
    (h : list session → interaction → reply * list session) gId uId dId f ev :
  (let f' := (h f ev).2 in
   f' = f ∨
   (∃ d, Forall2 never_reopens f d ∧ f' = stringify_parse <$> d) ∨
   (action ev = clockin ∧
    list_find (open_for (guild ev) (user ev) (dept ev)) f = None ∧
    f' = stringify_parse <$> (f ++ [new_session ev]))) →
  loaded f → open_count gId uId dId f ≤ 1 →
  loaded (h f ev).2 ∧ open_count gId uId dId (h f ev).2 ≤ 1.
Proof.
  simpl. intros [->|[(d & Hd & ->)|(_ & Hnone & ->)]] Hf Hle; [done|..].
  - split; [apply saved_is_loaded|].
    rewrite <- loaded_stored_count by apply saved_is_loaded.
    rewrite <- loaded_stored_count in Hle by done.
    etrans; [|exact Hle].
    by apply stored_count_mono, Forall2_never_reopens_saved.
  - split; [apply saved_is_loaded|].
    rewrite fmap_app, Hf. simpl.
    rewrite open_count_app. case_decide as Hnew; [|lia].
    destruct Hnew as (Hg & Hu & Hd & _). simpl in Hg, Hu, Hd. subst.
    by rewrite (no_active_open_count f (guild ev) (user ev) (dept ev)).
Qed.

(** ** C1: at most one open session per key *)

(** C1.  Starting from a loaded file with at most one open session of a key,
    every file a sequence of button presses goes through has at most one open
    session of that key, with either copy of the handler; the presses need
    not even be for that key.  A press adds a session only when it is a
    clock-in and [getActiveSession] finds nothing for its key, and what it
    appends then is the new open session; every other press keeps the number
    of sessions. *)
Theorem C1_at_most_one_open_session gId uId dId f evs :
  loaded f → open_count gId uId dId f ≤ 1 →
  (Forall (λ f', open_count gId uId dId f' ≤ 1)
          (states IndexJs.handleClockButton f evs) ∧
   Forall (λ f', open_count gId uId dId f' ≤ 1)
          (states Part000.handleClockButton f evs)) ∧
  (∀ ev,
     ((action ev = clockin ∧
       IndexJs.getActiveSession f (guild ev) (user ev) (dept ev) = None ∧
       (IndexJs.handleClockButton f ev).2 = f ++ [new_session ev]) ∨
      length (IndexJs.handleClockButton f ev).2 = length f) ∧
     ((action ev = clockin ∧
       Part000.getActiveSession f (guild ev) (user ev) (dept ev) = None ∧
       (Part000.handleClockButton f ev).2 = f ++ [new_session ev]) ∨
      length (Part000.handleClockButton f ev).2 = length f)).
Proof.
  intros Hf Hle. split.
  - split; revert f Hf Hle;
      induction evs as [|ev evs IH]; intros f Hf Hle; simpl;
      try (constructor; [done|constructor]).
    + constructor; [done|].
      destruct (step_open_count IndexJs.handleClockButton gId uId dId
                  f ev (IndexJs_handle_shape f ev) Hf Hle). by apply IH.
    + constructor; [done|].
      destruct (step_open_count Part000.handleClockButton gId uId dId
                  f ev (Part000_handle_shape f ev) Hf Hle). by apply IH.
  - intros ev. split.
    + destruct (IndexJs_handle_shape f ev)
        as [->|[(d & Hd & ->)|(Ha & Hn & ->)]]; [by right|..].
      * right. rewrite length_fmap. symmetry. by eapply Forall2_length.
      * left. split_and!; [done..|].
        rewrite fmap_app, Hf. done.
    + destruct (Part000_handle_shape f ev)
        as [->|[(d & Hd & ->)|(Ha & Hn & ->)]]; [by right|..].
      * right. rewrite length_fmap. symmetry. by eapply Forall2_length.
      * left. split_and!; [done..|].
        rewrite fmap_app, Hf. done.
Qed.

Lemma C1_witness :
  let f := [Session "s1" "g" "u" "d" 0 JS.Null JS.Null (JS.Bool false)
                    JS.Null #0] in
  let evs := [Interaction clockin "g" "u" "d" 5 "s2";
              Interaction break "g" "u" "d" 6 "s3";
              Interaction clockout "g" "u" "d" 9 "s4";
              Interaction clockin "g" "u" "d" 12 "s5"] in
  Forall (λ f', open_count "g" "u" "d" f' ≤ 1)
         (states IndexJs.handleClockButton f evs) ∧
  Forall (λ f', open_count "g" "u" "d" f' ≤ 1)
         (states Part000.handleClockButton f evs).
Proof.
  intros f evs.
  refine (proj1 (C1_at_most_one_open_session "g" "u" "d" f evs _ _)).
  - reflexivity.
  - vm_compute. lia.
Defined.

(** ** C6: a press out of turn is rejected and changes nothing *)

Lemma find_open_Some f gId uId dId :
  Exists (open_for gId uId dId) f →
  is_Some (list_find (open_for gId uId dId) f).
Proof.
  intros (s & Hs & Ho)%Exists_exists. by eapply list_find_elem_of.
Qed.

Lemma find_open_None f gId uId dId :
  ¬ Exists (open_for gId uId dId) f →
  list_find (open_for gId uId dId) f = None.
Proof.
  intros HE. apply list_find_None, Forall_forall. intros s Hs Ho.
  apply HE, Exists_exists. eauto.
Qed.

Lemma IndexJs_getActiveSession_eq f gId uId dId :
  IndexJs.getActiveSession f gId uId dId = list_find (open_for gId uId dId) f.
Proof. reflexivity. Qed.

Lemma Part000_getActiveSession_eq f gId uId dId :
  Part000.getActiveSession f gId uId dId = list_find (open_for gId uId dId) f.
Proof. reflexivity. Qed.

(** C6.  For every file, a clock-in while the key has an open session, and a
    break or clock-out while it has none, get the handler's refusal as reply
    (the text differs between the two copies) and leave the file exactly as
    it was. *)
Theorem C6_out_of_turn_rejected f ev :
  out_of_turn f ev →
  IndexJs.handleClockButton f ev =
    (Content match action ev with
             | clockin => "Already clocked in!"
             | _ => "You are not clocked in."
             end, f) ∧
  Part000.handleClockButton f ev =
    (Content match action ev with
             | clockin =>
                 "You are already clocked in for this department. Please clock out first."
             | _ => "You are not currently clocked in for this department."
             end, f).
Proof.
  unfold out_of_turn, IndexJs.handleClockButton, Part000.handleClockButton,
    loadData.
  rewrite IndexJs_getActiveSession_eq, Part000_getActiveSession_eq.
  destruct (action ev); simpl; intros Hturn; try done.
  - destruct (find_open_Some _ _ _ _ Hturn) as [[i s] ->]. done.
  - rewrite (find_open_None _ _ _ _ Hturn). done.
  - rewrite (find_open_None _ _ _ _ Hturn). done.
Qed.

Lemma C6_witness :
  let f := [Session "s1" "g" "u" "d" 0 JS.Null JS.Null (JS.Bool false)
                    JS.Null #0] in
  let ev := Interaction clockin "g" "u" "d" 5 "s2" in
  IndexJs.handleClockButton f ev = (Content "Already clocked in!", f) ∧
  Part000.handleClockButton f ev =
    (Content
       "You are already clocked in for this department. Please clock out first.",
     f).
Proof.
  intros f ev. apply (C6_out_of_turn_rejected f ev).
  apply Exists_cons_hd. by vm_compute.
Defined.

(** ** C8: week windows by offset *)

(** C8.  Whatever the local calendar and the instant (so whatever the day of
    the week), [getWeekRangeForOffset offset] is [getCurrentWeekRange] with
    both ends moved back by [offset * 604800000] ms; offset 0 is the current
    week itself and offset 1 lies exactly 604800000 ms earlier.  It holds for
    every integer offset, the non-negative ones in particular. *)
Theorem C8_week_range_for_offset `{LocalTime} (now offset : Z) :
  getWeekRangeForOffset now offset =
    Range (startMs (getCurrentWeekRange now) - offset * 604800000)
          (endMs (getCurrentWeekRange now) - offset * 604800000) ∧
  getWeekRangeForOffset now 0 = getCurrentWeekRange now ∧
  getWeekRangeForOffset now 1 =
    Range (startMs (getCurrentWeekRange now) - 604800000)
          (endMs (getCurrentWeekRange now) - 604800000).
Proof.
  unfold getWeekRangeForOffset.
  change (7 * 24 * 60 * 60 * 1000)%Z with 604800000%Z.
  split_and!.
  - reflexivity.
  - destruct (getCurrentWeekRange now) as [a b]; simpl. f_equal; lia.
  - f_equal; lia.
Qed.

(** ** Closing a session *)

(** The two [typeof] guards do what the specification asks of a load. *)
Lemma fill_break_fields_defaults s :
  Part000.fill_break_fields s = with_defaults s.
Proof.
  destruct s as [i0 g0 u0 d0 ci co du ob bs tb].
  unfold Part000.fill_break_fields, with_defaults.
  cbn [onBreak totalBreak set_onBreak set_totalBreak].
  destruct ob as [| |b|n]; cbn [JS.typeof]; (case_bool_decide; [|try done]);
  cbn [onBreak totalBreak set_onBreak set_totalBreak guildId userId
       departmentId clockIn clockOut duration breakStart];
  destruct tb as [| |b'|n']; cbn [JS.typeof]; (case_bool_decide; try done).
  all: try (exfalso; by match goal with H : _ |- _ => apply H end).
Qed.

Lemma modern_with_defaults s : modern s = true → with_defaults s = s.
Proof.
  destruct s as [i0 g0 u0 d0 ci co du ob bs tb]. unfold modern, with_defaults.
  cbn [onBreak totalBreak].
  destruct ob as [| |b|]; try done. by destruct tb as [| | |[|tb]].
Qed.

Lemma or_zero (x : Z) : JS.or #x #0 = #x.
Proof. unfold JS.or; simpl. destruct (Z.eqb_spec x 0); by subst. Qed.

(** With well-typed break fields and a break that, if in progress, did not
    start at the epoch itself, both copies of [closeSession] close the first
    session carrying the id as the specification says, and write it out. *)
Lemma closeSession_as_specified st sid t i s :
  list_find (λ x, id x = sid) (data st) = Some (i, s) →
  modern s = true → breakStart s ≠ #0 →
  let s' := spec_close t s in
  let st' := Store (<[i:=s']> (data st))
                   (stringify_parse <$> <[i:=s']> (data st)) in
  IndexJs.closeSession st sid t =
    (Some (Result.Make (duration s') (totalBreak s')), st') ∧
  Part000.closeSession st sid t =
    (Some (Result.Make (duration s') (totalBreak s')), st').
Proof.
  intros Hfind Hmod Hb0. unfold IndexJs.closeSession, Part000.closeSession.
  rewrite Hfind, fill_break_fields_defaults, modern_with_defaults by done.
  clear Hfind.
  destruct s as [i0 g0 u0 d0 ci co du ob bs tb].
  unfold modern in Hmod. cbn [onBreak totalBreak breakStart] in *.
  destruct ob as [| |b|]; try done. destruct tb as [| | |[|tb]]; try done.
  rewrite or_zero.
  destruct bs as [| | |[|bs]]; try done.
  - by destruct b.
  - destruct b; [|done].
    cbn [JS.ToBoolean andb]. destruct (Z.eqb_spec bs 0) as [->|_]; done.
Qed.
(** The closed session is what the next [loadData] reads at its place. *)
Lemma closeSession_stored st sid t i s :
  list_find (λ x, id x = sid) (data st) = Some (i, s) →
  (stringify_parse <$> <[i:=spec_close t s]> (data st)) !! i =
    Some (spec_close t s).
Proof.
  intros (Hi & _)%list_find_Some.
  rewrite list_lookup_fmap, list_lookup_insert_eq by (by eapply lookup_lt_Some).
  done.
Qed.

(** What either copy stores for a session with well-typed break fields: the
    break total is the old one, or the old one plus the break in progress,
    and the worked time is floored at 0. *)
Lemma closeSession_modern st sid t i s :
  list_find (λ x, id x = sid) (data st) = Some (i, s) →
  modern s = true →
  ∃ tb,
    let s' := Session (id s) (guildId s) (userId s) (departmentId s)
                      (clockIn s) #t #(Z.max (t - clockIn s - tb) 0)
                      (JS.Bool false) JS.Null #tb in
    let st' := Store (<[i:=s']> (data st))
                     (stringify_parse <$> <[i:=s']> (data st)) in
    IndexJs.closeSession st sid t =
      (Some (Result.Make (duration s') (totalBreak s')), st') ∧
    Part000.closeSession st sid t =
      (Some (Result.Make (duration s') (totalBreak s')), st').
Proof.
  intros Hfind Hmod.
  destruct (decide (breakStart s = #0)) as [Hb0|Hb0].
  - exists (totalBreak_ms s).
    unfold IndexJs.closeSession, Part000.closeSession.
    rewrite Hfind, fill_break_fields_defaults, modern_with_defaults by done.
    clear Hfind. destruct s as [i0 g0 u0 d0 ci co du ob bs tb].
    unfold modern in Hmod. cbn [onBreak totalBreak breakStart] in *.
    subst bs. destruct ob as [| |b|]; try done.
    destruct tb as [| | |[|tb]]; try done.
    rewrite or_zero. cbn [JS.ToBoolean Z.eqb negb andb]. rewrite andb_false_r.
    done.
  - pose proof (closeSession_as_specified st sid t i s Hfind Hmod Hb0) as H.
    unfold spec_close in H.
    eexists. exact H.
Qed.

(** The scenario of the specification: clock-in at 0, break at 1000, break
    end at 4000, clock-out at 10000. *)
Lemma break_scenario :
  let evs := [Interaction clockin "g" "u" "d" 0 "s1";
              Interaction break "g" "u" "d" 1000 "s2";
              Interaction break "g" "u" "d" 4000 "s3";
              Interaction clockout "g" "u" "d" 10000 "s4"] in
  let closed := [Session "s1" "g" "u" "d" 0 #10000 #7000 (JS.Bool false)
                         JS.Null #3000] in
  last (states IndexJs.handleClockButton [] evs) = Some closed ∧
  last (states Part000.handleClockButton [] evs) = Some closed.
Proof. by vm_compute. Qed.

(** ** C2: what [closeSession] does with a break in progress *)

(** C2.  A session on break whose break started at timestamp 0 (clock-in at
    0, break at 0) is closed at 10000 without the break being folded in: both
    copies store [totalBreak = 0] and [duration = 10000], where the
    specification's [close] gives [totalBreak = 10000] and [duration = 0].
    The guard [s.onBreak && s.breakStart] reads a [breakStart] of 0 as
    absent. *)
Theorem C2_break_started_at_zero_not_folded :
  let s := Session "s1" "g" "u" "d" 0 JS.Null JS.Null (JS.Bool true) #0 #0 in
  let code := Session "s1" "g" "u" "d" 0 #10000 #10000 (JS.Bool false)
                      JS.Null #0 in
  last (states IndexJs.handleClockButton []
          [Interaction clockin "g" "u" "d" 0 "s1";
           Interaction break "g" "u" "d" 0 "s2"]) = Some [s] ∧
  last (states Part000.handleClockButton []
          [Interaction clockin "g" "u" "d" 0 "s1";
           Interaction break "g" "u" "d" 0 "s2"]) = Some [s] ∧
  break_in_progress s = Some 0%Z ∧
  IndexJs.closeSession (loadData [s]) "s1" 10000 =
    (Some (Result.Make #10000 #0), Store [code] [code]) ∧
  Part000.closeSession (loadData [s]) "s1" 10000 =
    (Some (Result.Make #10000 #0), Store [code] [code]) ∧
  spec_close 10000 s =
    Session "s1" "g" "u" "d" 0 #10000 #0 (JS.Bool false) JS.Null #10000.
Proof. by vm_compute. Qed.

(** ** C5: break time against elapsed time *)

(** C5, the claim as worded fails: a session clocked in at 0 that has
    gathered 5000 ms of break and is closed at 1000 is stored with
    [totalBreak = 5000], more than the 1000 ms between clock-in and
    clock-out.  Only the worked time is floored. *)
Lemma C5_total_break_not_bounded :
  ¬ break_bounded_on_close IndexJs.closeSession ∧
  ¬ break_bounded_on_close Part000.closeSession.
Proof.
  pose (s := Session "s1" "g" "u" "d" 0 JS.Null JS.Null (JS.Bool false)
                     JS.Null #5000).
  split; intros Hb;
    destruct (Hb [s] "s1" 1000%Z 0 s eq_refl eq_refl)
      as (s' & tb & Hs' & Htb & Hle);
    vm_compute in Hs'; injection Hs' as <-;
    vm_compute in Htb; injection Htb as <-;
    vm_compute in Hle; by apply Hle.
Qed.

(** C5, amended.  For every session with well-typed break fields, what
    [closeSession] stores has the worked time floored at 0:
    [duration = max (clockOut - clockIn - totalBreak) 0 >= 0], so
    [duration + totalBreak >= clockOut - clockIn], and
    [totalBreak <= clockOut - clockIn] holds exactly when nothing was floored
    away, that is when [duration + totalBreak = clockOut - clockIn]. *)
Theorem C5_worked_time_floored f sid t i s :
  list_find (λ x, id x = sid) f = Some (i, s) → modern s = true →
  ∃ s' dur tb,
    file (IndexJs.closeSession (loadData f) sid t).2 !! i = Some s' ∧
    file (Part000.closeSession (loadData f) sid t).2 !! i = Some s' ∧
    clockIn s' = clockIn s ∧ clockOut s' = #t ∧
    duration s' = #dur ∧ totalBreak s' = #tb ∧
    (dur = Z.max (t - clockIn s - tb) 0 ∧ 0 ≤ dur ∧
     t - clockIn s ≤ dur + tb ∧
     (tb ≤ t - clockIn s ↔ dur + tb = t - clockIn s))%Z.
Proof.
  intros Hfind Hmod.
  destruct (closeSession_modern (loadData f) sid t i s Hfind Hmod)
    as (tb & HI & HP).
  rewrite HI, HP. cbn [snd file].
  assert (Hi : i < length f).
  { apply list_find_Some in Hfind as (Hi & _). by eapply lookup_lt_Some. }
  eexists _, _, tb. rewrite list_lookup_fmap.
  unfold loadData; cbn [data]. rewrite list_lookup_insert_eq by done.
  split_and!; try reflexivity; lia.
Qed.

Lemma C5_witness :
  let s := Session "s1" "g" "u" "d" 0 JS.Null JS.Null (JS.Bool true)
                   #1000 #0 in
  ∃ s' dur tb,
    file (IndexJs.closeSession (loadData [s]) "s1" 10000).2 !! 0 = Some s' ∧
    file (Part000.closeSession (loadData [s]) "s1" 10000).2 !! 0 = Some s' ∧
    clockIn s' = clockIn s ∧ clockOut s' = #10000 ∧
    duration s' = #dur ∧ totalBreak s' = #tb ∧
    (dur = Z.max (10000 - clockIn s - tb) 0 ∧ 0 ≤ dur ∧
     10000 - clockIn s ≤ dur + tb ∧
     (tb ≤ 10000 - clockIn s ↔ dur + tb = 10000 - clockIn s))%Z.
Proof.
  intros s. apply (C5_worked_time_floored [s] "s1" 10000 0 s);
    reflexivity.
Defined.

(** ** C4: closing twice *)

Lemma filter_length_insert {A} (P : A → Prop) `{!∀ x, Decision (P x)}
    (l : list A) i x y :
  l !! i = Some x →
  length (filter P (<[i:=y]> l)) + (if decide (P x) then 1 else 0) =
  length (filter P l) + (if decide (P y) then 1 else 0).
Proof.
  revert i. induction l as [|z l IH]; intros [|i] Hi; try done; simpl in *.
  - injection Hi as ->. rewrite !filter_cons.
    destruct (decide (P x)), (decide (P y)); simpl; lia.
  - rewrite !filter_cons. specialize (IH i Hi).
    destruct (decide (P z)); simpl; lia.
Qed.

Lemma find_by_unique_id f i a :
  NoDup (id <$> f) → f !! i = Some a →
  list_find (λ x, id x = id a) f = Some (i, a).
Proof.
  intros Hnd Hi. apply list_find_Some. split_and!; [done..|].
  intros j y Hj Hlt Hid.
  assert (i = j); [|lia].
  eapply (NoDup_lookup _ i j (id a)); [exact Hnd|..];
    rewrite list_lookup_fmap; [rewrite Hi|rewrite Hj]; simpl; congruence.
Qed.

Lemma IndexJs_closeSession_found st sid t i s :
  list_find (λ x, id x = sid) (data st) = Some (i, s) →
  ∃ r s',
    IndexJs.closeSession st sid t =
      (Some r, saveData (Store (<[i:=s']> (data st)) (file st))) ∧
    clockOut s' = #t ∧ guildId s' = guildId s ∧ userId s' = userId s ∧
    departmentId s' = departmentId s.
Proof.
  intros Hfind. unfold IndexJs.closeSession. rewrite Hfind.
  eexists _, _. split; [reflexivity|]. by destruct (_ && _).
Qed.

Lemma Part000_closeSession_found st sid t i s :
  list_find (λ x, id x = sid) (data st) = Some (i, s) →
  ∃ r s',
    Part000.closeSession st sid t =
      (Some r, saveData (Store (<[i:=s']> (data st)) (file st))) ∧
    clockOut s' = #t ∧ guildId s' = guildId s ∧ userId s' = userId s ∧
    departmentId s' = departmentId s.
Proof.
  intros Hfind. unfold Part000.closeSession. rewrite Hfind.
  eexists _, _. split; [reflexivity|].
  pose proof (never_reopens_fill s) as (Hg & Hu & Hd & _).
  cbn [clockOut guildId userId departmentId set_totalBreak set_breakStart
       set_onBreak set_duration set_clockOut]. done.
Qed.

Lemma stored_count_saved gId uId dId d :
  stored_count gId uId dId (stringify_parse <$> d) = stored_count gId uId dId d.
Proof.
  unfold stored_count. induction d as [|s d IH]; [done|].
  rewrite fmap_cons, !filter_cons.
  assert (Hso : stored_open (stringify_parse s) = stored_open s).
  { unfold stored_open; simpl. apply f_equal, JSON_roundtrip_idemp. }
  destruct (decide _) as [H1|H1], (decide _) as [H2|H2]; simpl;
    [by rewrite IH| | |done]; exfalso.
  - apply H2. destruct H1 as (?&?&?&?). split_and!; try done. congruence.
  - apply H1. destruct H2 as (?&?&?&?). split_and!; try done. congruence.
Qed.

Lemma open_count_zero_find f gId uId dId :
  open_count gId uId dId f = 0 →
  list_find (open_for gId uId dId) f = None.
Proof.
  unfold open_count. intros H0%nil_length_inv.
  apply list_find_None, Forall_forall. intros s Hs Ho.
  by eapply filter_nil_not_elem_of.
Qed.

(** Once the open session of a key is replaced by a closed version of it,
    the file written has no open session of that key left. *)
Lemma closing_leaves_none_open f gId uId dId i a a' t :
  loaded f → open_count gId uId dId f ≤ 1 →
  f !! i = Some a → open_for gId uId dId a →
  clockOut a' = #t →
  list_find (open_for gId uId dId) (stringify_parse <$> <[i:=a']> f) = None.
Proof.
  intros Hf Hle Hi Ho Hco. apply open_count_zero_find.
  rewrite <- loaded_stored_count by apply saved_is_loaded.
  rewrite stored_count_saved.
  rewrite <- loaded_stored_count in Hle by done.
  unfold stored_count in *.
  pose proof (filter_length_insert
    (λ s, guildId s = gId ∧ userId s = uId ∧ departmentId s = dId ∧
          stored_open s = true) f i a a' Hi) as Hins.
  rewrite decide_True in Hins; cycle 1.
  { destruct Ho as (?&?&?&?). split_and!; try done.
    rewrite (loaded_stored_open f a Hf); [done|].
    apply list_elem_of_lookup; eauto. }
  rewrite decide_False in Hins; [lia|].
  intros (_&_&_&Hopen). unfold stored_open in Hopen.
  by rewrite Hco in Hopen.
Qed.

(** C4, the claim as worded fails: [closeSession] looks the session up by id
    alone, so a second call on a closed session is neither refused nor
    without effect.  A session clocked in at 0 and closed at 10000 is closed
    again at 20000 with [clockOut] and [duration] overwritten. *)
Lemma C4_second_close_overwrites :
  ¬ close_idempotent_safe IndexJs.closeSession ∧
  ¬ close_idempotent_safe Part000.closeSession.
Proof.
  pose (s := Session "s1" "g" "u" "d" 0 JS.Null JS.Null (JS.Bool false)
                     JS.Null #0).
  split; intros Hsafe;
    (destruct (Hsafe [s] "s1" 10000%Z 20000%Z) as [H|H];
     [lia|by vm_compute|by vm_compute in H..]).
Qed.

(** C4, amended.  The guard is the handler's fresh lookup, not
    [closeSession].  In a loaded file with distinct ids and at most one open
    session of the key, after a clock-out press [getActiveSession] finds no
    open session of the key, and any further clock-out press for the key is
    refused and leaves the file as the first press left it. *)
Theorem C4_second_clock_out_rejected f ev1 ev2 :
  loaded f → NoDup (id <$> f) →
  open_count (guild ev1) (user ev1) (dept ev1) f ≤ 1 →
  action ev1 = clockout → action ev2 = clockout →
  guild ev2 = guild ev1 → user ev2 = user ev1 → dept ev2 = dept ev1 →
  (let f1 := (IndexJs.handleClockButton f ev1).2 in
   IndexJs.getActiveSession f1 (guild ev1) (user ev1) (dept ev1) = None ∧
   IndexJs.handleClockButton f1 ev2 =
     (Content "You are not clocked in.", f1)) ∧
  (let f1 := (Part000.handleClockButton f ev1).2 in
   Part000.getActiveSession f1 (guild ev1) (user ev1) (dept ev1) = None ∧
   Part000.handleClockButton f1 ev2 =
     (Content "You are not currently clocked in for this department.", f1)).
Proof.
  intros Hf Hnd Hle Ha1 Ha2 Hg Hu Hd.
  assert (HI : ∀ ev f1,
    action ev = clockout → guild ev = guild ev1 → user ev = user ev1 →
    dept ev = dept ev1 →
    list_find (open_for (guild ev1) (user ev1) (dept ev1)) f1 = None →
    IndexJs.handleClockButton f1 ev =
      (Content "You are not clocked in.", f1)).
  { intros ev f1 Ha Hg' Hu' Hd' Hnone.
    unfold IndexJs.handleClockButton, loadData.
    rewrite IndexJs_getActiveSession_eq, Ha, Hg', Hu', Hd'.
    cbn [data file]. by rewrite Hnone. }
  assert (HP : ∀ ev f1,
    action ev = clockout → guild ev = guild ev1 → user ev = user ev1 →
    dept ev = dept ev1 →
    list_find (open_for (guild ev1) (user ev1) (dept ev1)) f1 = None →
    Part000.handleClockButton f1 ev =
      (Content "You are not currently clocked in for this department.",
       f1)).
  { intros ev f1 Ha Hg' Hu' Hd' Hnone.
    unfold Part000.handleClockButton, loadData.
    rewrite Part000_getActiveSession_eq, Ha, Hg', Hu', Hd'.
    cbn [data file]. by rewrite Hnone. }
  assert (Hfirst : ∀ f1,
    list_find (open_for (guild ev1) (user ev1) (dept ev1)) f1 = None →
    (IndexJs.getActiveSession f1 (guild ev1) (user ev1) (dept ev1) = None ∧
     IndexJs.handleClockButton f1 ev2 =
       (Content "You are not clocked in.", f1)) ∧
    (Part000.getActiveSession f1 (guild ev1) (user ev1) (dept ev1) = None ∧
     Part000.handleClockButton f1 ev2 =
       (Content "You are not currently clocked in for this department.",
        f1))) by auto.
  destruct (list_find (open_for (guild ev1) (user ev1) (dept ev1)) f)
    as [[i a]|] eqn:Hact.
  - pose proof Hact as (Hi & Ho & _)%list_find_Some.
    pose proof (find_by_unique_id f i a Hnd Hi) as Hbyid.
    split; cbn zeta.
    + apply Hfirst.
      unfold IndexJs.handleClockButton, loadData.
      rewrite IndexJs_getActiveSession_eq, Ha1. cbn [data file].
      rewrite Hact.
      destruct (IndexJs_closeSession_found (Store f f) (id a) (now ev1) i a
                  Hbyid) as (r & a' & -> & Hco & _).
      cbn [snd saveData data file].
      eapply closing_leaves_none_open; eauto.
    + apply Hfirst.
      unfold Part000.handleClockButton, loadData.
      rewrite Part000_getActiveSession_eq, Ha1. cbn [data file].
      rewrite Hact.
      assert (Hbyid' : list_find (λ x, id x = id (Part000.fill_break_fields a))
                (<[i:=Part000.fill_break_fields a]> f) =
              Some (i, Part000.fill_break_fields a)).
      { apply find_by_unique_id.
        - rewrite list_fmap_insert.
          rewrite list_insert_id; [done|].
          rewrite list_lookup_fmap, Hi. simpl. f_equal.
          rewrite fill_break_fields_defaults. unfold with_defaults.
          by repeat case_match.
        - apply list_lookup_insert_eq. by eapply lookup_lt_Some. }
      destruct (Part000_closeSession_found
                  (Store (<[i:=Part000.fill_break_fields a]> f) f)
                  (id (Part000.fill_break_fields a)) (now ev1) i _ Hbyid')
        as (r & a' & -> & Hco & _).
      cbn [snd saveData data file]. rewrite list_insert_insert_eq.
      eapply closing_leaves_none_open; eauto.
  - split; cbn zeta.
    + rewrite (HI ev1 f) by done. by apply Hfirst.
    + rewrite (HP ev1 f) by done. by apply Hfirst.
Qed.

Lemma C4_witness :
  let f := [Session "s1" "g" "u" "d" 0 JS.Null JS.Null (JS.Bool false)
                    JS.Null #0] in
  let ev1 := Interaction clockout "g" "u" "d" 10000 "x" in
  let ev2 := Interaction clockout "g" "u" "d" 20000 "y" in
  let f1 := (IndexJs.handleClockButton f ev1).2 in
  IndexJs.getActiveSession f1 "g" "u" "d" = None ∧
  IndexJs.handleClockButton f1 ev2 = (Content "You are not clocked in.", f1).
Proof.
  intros f ev1 ev2.
  refine (proj1 (C4_second_clock_out_rejected f ev1 ev2 _ _ _ _ _ _ _ _));
    first [reflexivity | apply NoDup_singleton | vm_compute; lia].
Defined.

(** ** C9: records without break fields *)

Lemma with_defaults_idemp s : with_defaults (with_defaults s) = with_defaults s.
Proof.
  destruct s as [i0 g0 u0 d0 ci co du ob bs tb]. unfold with_defaults.
  cbn [onBreak totalBreak set_onBreak set_totalBreak].
  destruct ob as [| |b|n], tb as [| |b'|n']; reflexivity.
Qed.

Lemma with_defaults_keeps s :
  id (with_defaults s) = id s ∧ guildId (with_defaults s) = guildId s ∧
  userId (with_defaults s) = userId s ∧
  departmentId (with_defaults s) = departmentId s ∧
  clockOut (with_defaults s) = clockOut s.
Proof.
  destruct s as [i0 g0 u0 d0 ci co du ob bs tb]. unfold with_defaults.
  cbn [onBreak totalBreak set_onBreak set_totalBreak].
  by destruct ob as [| |b|n], tb as [| |b'|n'].
Qed.

Lemma list_find_insert_same {A} (P : A → Prop) `{!∀ x, Decision (P x)}
    (l : list A) i x y :
  list_find P l = Some (i, x) → P y → list_find P (<[i:=y]> l) = Some (i, y).
Proof.
  intros (Hi & _ & Hleast)%list_find_Some Hy. apply list_find_Some.
  split_and!; [|done|].
  - apply list_lookup_insert_eq. by eapply lookup_lt_Some.
  - intros j z Hj Hlt. rewrite list_lookup_insert_ne in Hj by lia. eauto.
Qed.

(** [closeSession] of [part_000] treats the record it finds as the record
    with the defaults filled in. *)
Lemma Part000_close_reads_defaults st sid t i s :
  list_find (λ x, id x = sid) (data st) = Some (i, s) →
  Part000.closeSession (Store (<[i:=with_defaults s]> (data st)) (file st))
                       sid t =
  Part000.closeSession st sid t.
Proof.
  intros Hfind. unfold Part000.closeSession. cbn [data file].
  rewrite (list_find_insert_same _ _ _ _ (with_defaults s) Hfind); cycle 1.
  { destruct (with_defaults_keeps s) as (-> & _).
    by apply list_find_Some in Hfind as (_ & ? & _). }
  rewrite Hfind, !fill_break_fields_defaults, with_defaults_idemp.
  by rewrite list_insert_insert_eq.
Qed.

(** So does its [handleClockButton] on a break or clock-out press: reply and
    file are those of the same press on the record with defaults. *)
Lemma Part000_press_reads_defaults f ev i a :
  Part000.getActiveSession f (guild ev) (user ev) (dept ev) = Some (i, a) →
  action ev = break ∨ action ev = clockout →
  Part000.handleClockButton (<[i:=with_defaults a]> f) ev =
  Part000.handleClockButton f ev.
Proof.
  rewrite Part000_getActiveSession_eq. intros Hact Ha.
  pose proof Hact as (Hi & Ho & _)%list_find_Some.
  assert (Hact' : list_find (open_for (guild ev) (user ev) (dept ev))
                    (<[i:=with_defaults a]> f) = Some (i, with_defaults a)).
  { apply (list_find_insert_same _ _ _ a); [done|].
    destruct (with_defaults_keeps a) as (_ & Hg & Hu & Hd & Hc).
    unfold open_for in *. by rewrite Hg, Hu, Hd, Hc. }
  unfold Part000.handleClockButton, loadData.
  rewrite !Part000_getActiveSession_eq. cbn [data file].
  rewrite Hact, Hact', !fill_break_fields_defaults, with_defaults_idemp.
  rewrite !list_insert_insert_eq.
  destruct Ha as [-> | ->].
  - by destruct (negb _).
  - unfold Part000.closeSession. cbn [data file].
    destruct (list_find (λ sess, id sess = id (with_defaults a)) _)
      as [[j s]|] eqn:Hfind; [done|].
    exfalso. apply list_find_None in Hfind.
    eapply (Forall_lookup_1 _ _ i) in Hfind;
      [|apply list_lookup_insert_eq; by eapply lookup_lt_Some].
    by apply Hfind.
Qed.

(** C9.  [index.js] has no such defaults.  A record without break fields,
    closed at 10000 by its [closeSession], yields a worked time of [NaN] and
    an undefined break total, and is written out with [duration: null]; the
    same record with [onBreak = false] and [totalBreak = 0] yields 10000 and
    0, which is also what [part_000] makes of the bare record.  Two break
    presses on the bare record leave [totalBreak] at [null] in [index.js]. *)
Theorem C9_index_js_reads_no_defaults :
  let legacy := Session "s1" "g" "u" "d" 0 JS.Null JS.Null
                        JS.Undefined JS.Undefined JS.Undefined in
  let filled := Session "s1" "g" "u" "d" 0 JS.Null JS.Null
                        (JS.Bool false) JS.Undefined #0 in
  let closed := Session "s1" "g" "u" "d" 0 #10000 #10000 (JS.Bool false)
                        JS.Null #0 in
  with_defaults legacy = filled ∧
  IndexJs.closeSession (loadData [legacy]) "s1" 10000 =
    (Some (Result.Make (JS.Num JS.NaN) JS.Undefined),
     Store [Session "s1" "g" "u" "d" 0 #10000 (JS.Num JS.NaN) (JS.Bool false)
                    JS.Null JS.Undefined]
           [Session "s1" "g" "u" "d" 0 #10000 JS.Null (JS.Bool false)
                    JS.Null JS.Undefined]) ∧
  IndexJs.closeSession (loadData [filled]) "s1" 10000 =
    (Some (Result.Make #10000 #0), Store [closed] [closed]) ∧
  Part000.closeSession (loadData [legacy]) "s1" 10000 =
    (Some (Result.Make #10000 #0), Store [closed] [closed]) ∧
  last (states IndexJs.handleClockButton [legacy]
          [Interaction break "g" "u" "d" 1000 "x";
           Interaction break "g" "u" "d" 4000 "y"]) =
    Some [Session "s1" "g" "u" "d" 0 JS.Null JS.Null (JS.Bool false)
                  JS.Null JS.Null] ∧
  last (states Part000.handleClockButton [legacy]
          [Interaction break "g" "u" "d" 1000 "x";
           Interaction break "g" "u" "d" 4000 "y"]) =
    Some [Session "s1" "g" "u" "d" 0 JS.Null JS.Null (JS.Bool false)
                  JS.Null #3000].
Proof. by vm_compute. Qed.

(** ** Sums over the sessions a query selects *)

Lemma total_ms_app l k : total_ms (l ++ k) = (total_ms l + total_ms k)%Z.
Proof. induction l as [|s l IH]; simpl; [done|]. rewrite IH. lia. Qed.

Lemma add_duration acc s z :
  JS.ToNumber (duration s) = JS.Fin z →
  JS.add #acc (duration s) = #(acc + z) ∧ duration_ms s = z.
Proof. intros Hz. unfold JS.add, duration_ms. rewrite Hz. done. Qed.

Lemma foldl_add_total l acc :
  (∀ s, s ∈ l → ∃ z, JS.ToNumber (duration s) = JS.Fin z) →
  foldl (λ a b, JS.add a (duration b)) #acc l = #(acc + total_ms l).
Proof.
  revert acc. induction l as [|s l IH]; intros acc Hfin; simpl.
  - by rewrite Z.add_0_r.
  - destruct (Hfin s) as [z Hz]; [by left|].
    destruct (add_duration acc s z Hz) as [-> ->].
    rewrite IH by (intros; apply Hfin; by right).
    f_equal. f_equal. lia.
Qed.

Lemma foldl_select (step : JS.value → session → JS.value)
    (sel : session → Prop) `{!∀ s, Decision (sel s)} d acc :
  (∀ total s, step total s =
              if decide (sel s) then JS.add total (duration s) else total) →
  (∀ s, s ∈ d → sel s → ∃ z, JS.ToNumber (duration s) = JS.Fin z) →
  foldl step #acc d = #(acc + total_ms (filter sel d)).
Proof.
  intros Hstep. revert acc. induction d as [|s d IH]; intros acc Hfin; simpl.
  - by rewrite Z.add_0_r.
  - rewrite Hstep, filter_cons. destruct (decide (sel s)) as [Hs|Hs].
    + destruct (Hfin s) as [z Hz]; [by left|done|].
      destruct (add_duration acc s z Hz) as [-> Hms].
      rewrite IH by (intros; apply Hfin; [by right|done]).
      simpl. rewrite Hms. f_equal. f_equal. lia.
    + apply IH. intros; apply Hfin; [by right|done].
Qed.

(** The chain of [continue]s of [part_000] lets through what
    [in_part_000] describes. *)
Lemma part_000_continues {T} who guild x startMs endMs s (skip go : T) :
  (if bool_decide (guildId s ≠ guild) then skip
   else if bool_decide (who s ≠ x) then skip
   else if JS.eq_null (duration s) then skip
   else if JS.eq_null (clockOut s) then skip
   else if JS.lt (clockOut s) #startMs || JS.ge (clockOut s) #endMs
        then skip
        else go) =
  if decide (in_part_000 who guild x startMs endMs s) then go else skip.
Proof.
  destruct (decide (in_part_000 who guild x startMs endMs s))
    as [(Hg & Hw & Hd & Hc & Hr)|Hn].
  - rewrite !bool_decide_eq_false_2 by (intros Hne; by apply Hne).
    by rewrite Hd, Hc, Hr.
  - destruct (decide (guildId s = guild)) as [Hg|Hg];
      [|by rewrite bool_decide_eq_true_2].
    rewrite bool_decide_eq_false_2 by (intros Hne; by apply Hne).
    destruct (decide (who s = x)) as [Hw|Hw];
      [|by rewrite bool_decide_eq_true_2].
    rewrite bool_decide_eq_false_2 by (intros Hne; by apply Hne).
    destruct (JS.eq_null (duration s)) eqn:Hd; [done|].
    destruct (JS.eq_null (clockOut s)) eqn:Hc; [done|].
    destruct (_ || _) eqn:Hr; [done|].
    exfalso. apply Hn. unfold in_part_000. by rewrite Hd, Hc, Hr.
Qed.

(** On a consistent session both tests agree with the specification. *)
Lemma in_index_js_counted who guild x startMs endMs s :
  consistent s →
  in_index_js who guild x startMs endMs s ↔
  counted who guild x startMs endMs s.
Proof.
  unfold consistent, in_index_js, counted, closed_in, JS.ge, JS.lt.
  destruct (duration s) as [| |b|[|z]]; try done; simpl;
    try (intros _; split; intros (?&?&?&?); done).
  destruct (clockOut s) as [| | |[|c]]; try done. simpl. intros _.
  rewrite Z.leb_le, Z.ltb_lt. tauto.
Qed.

Lemma in_part_000_counted who guild x startMs endMs s :
  consistent s →
  in_part_000 who guild x startMs endMs s ↔
  counted who guild x startMs endMs s.
Proof.
  unfold consistent, in_part_000, counted, closed_in, JS.ge, JS.lt.
  destruct (duration s) as [| |b|[|z]]; try done; simpl;
    try (intros _; split; intros (?&?&?&?); done).
  destruct (clockOut s) as [| | |[|c]]; try done. simpl. intros _.
  rewrite orb_false_iff, Z.leb_gt, Z.ltb_ge. intuition lia.
Qed.

Lemma consistent_finite s :
  consistent s → JS.eq_null (duration s) = false →
  ∃ z, JS.ToNumber (duration s) = JS.Fin z.
Proof.
  unfold consistent. destruct (duration s) as [| |b|[|z]]; try done.
  simpl. eauto.
Qed.

Lemma loaded_finite f s :
  loaded f → s ∈ f → JS.eq_null (duration s) = false →
  ∃ z, JS.ToNumber (duration s) = JS.Fin z.
Proof.
  intros Hf Hs Hnn. pose proof (loaded_elem f s Hf Hs) as E.
  apply (f_equal duration) in E. simpl in E.
  destruct (duration s) as [| |[|]|[|z]]; try done; simpl; eauto.
Qed.

(** The four sums, in terms of the test each copy applies. *)
Lemma IndexJs_total_in_range who guild x startMs endMs d :
  (∀ s, s ∈ d → JS.eq_null (duration s) = false →
        ∃ z, JS.ToNumber (duration s) = JS.Fin z) →
  foldl (λ a b, JS.add a (duration b)) #0
        (filter (in_index_js who guild x startMs endMs) d) =
  #(total_ms (filter (in_index_js who guild x startMs endMs) d)).
Proof.
  intros Hfin. rewrite foldl_add_total; [done|].
  intros s [Hsel Hs]%list_elem_of_filter. apply Hfin; [done|].
  by destruct Hsel as (_&_&?&_).
Qed.

Lemma Part000_total_in_range who guild x startMs endMs d :
  (∀ s, s ∈ d → JS.eq_null (duration s) = false →
        ∃ z, JS.ToNumber (duration s) = JS.Fin z) →
  foldl (λ total s,
           if bool_decide (guildId s ≠ guild) then total
           else if bool_decide (who s ≠ x) then total
           else if JS.eq_null (duration s) then total
           else if JS.eq_null (clockOut s) then total
           else
             let end_ := clockOut s in
             if JS.lt end_ #startMs || JS.ge end_ #endMs then total
             else JS.add total (duration s))
        #0 d =
  #(total_ms (filter (in_part_000 who guild x startMs endMs) d)).
Proof.
  intros Hfin.
  rewrite (foldl_select _ (in_part_000 who guild x startMs endMs)); [done|..].
  - intros total s. cbn zeta. apply part_000_continues.
  - intros s Hs Hsel. apply Hfin; [done|]. by destruct Hsel as (_&_&?&_).
Qed.

Lemma filter_counted (sel : session → Prop) `{!∀ s, Decision (sel s)}
    who guild x startMs endMs d :
  Forall consistent d →
  (∀ s, consistent s → sel s ↔ counted who guild x startMs endMs s) →
  filter sel d = filter (counted who guild x startMs endMs) d.
Proof.
  intros Hd Hsel. apply filter_ext_elem. intros s Hs. apply Hsel.
  by eapply Forall_forall in Hd.
Qed.

(** ** The [totals] map *)

Lemma Map_get_set_eq m k v : Map_get (Map_set m k v) k = v.
Proof.
  induction m as [|[k' v'] m IH]; simpl.
  - by rewrite decide_True.
  - destruct (decide (k' = k)) as [->|Hne]; simpl.
    + by rewrite decide_True.
    + by rewrite decide_False.
Qed.

Lemma Map_get_set_ne m k k' v :
  k ≠ k' → Map_get (Map_set m k v) k' = Map_get m k'.
Proof.
  intros Hne. induction m as [|[k0 v0] m IH]; simpl.
  - by rewrite decide_False.
  - destruct (decide (k0 = k)) as [->|Hk]; simpl.
    + by rewrite !decide_False.
    + by rewrite IH.
Qed.

Lemma Map_set_keys m k v u :
  u ∈ (Map_set m k v).*1 ↔ u ∈ m.*1 ∨ u = k.
Proof.
  induction m as [|[k0 v0] m IH]; simpl.
  - rewrite list_elem_of_singleton. split; [auto|].
    intros [H%elem_of_nil|H]; done.
  - destruct (decide (k0 = k)) as [->|Hk]; simpl;
      rewrite !elem_of_cons; [|rewrite IH]; tauto.
Qed.

Lemma Map_set_NoDup m k v : NoDup m.*1 → NoDup (Map_set m k v).*1.
Proof.
  induction m as [|[k0 v0] m IH]; simpl; intros Hnd.
  - apply NoDup_singleton.
  - apply NoDup_cons in Hnd as [Hnot Hnd].
    destruct (decide (k0 = k)) as [->|Hk]; simpl; apply NoDup_cons.
    + done.
    + split; [|by apply IH]. rewrite Map_set_keys. intros [?|?]; done.
Qed.

Lemma Map_get_elem m k v : NoDup m.*1 → (k, v) ∈ m → Map_get m k = v.
Proof.
  induction m as [|[k0 v0] m IH]; simpl; intros Hnd Hin.
  - by apply elem_of_nil in Hin.
  - apply NoDup_cons in Hnd as [Hnot Hnd].
    apply elem_of_cons in Hin as [[= <- <-]|Hin].
    + by rewrite decide_True.
    + rewrite decide_False; [by apply IH|].
      intros ->. apply Hnot. apply list_elem_of_fmap. by exists (k, v).
Qed.

(** A map whose values are all finite numbers *)
Lemma Map_get_finite m k :
  Forall (λ e, ∃ z, e.2 = #z) m →
  JS.or (Map_get m k) #0 = #(value_ms (Map_get m k)).
Proof.
  induction 1 as [|[k0 v0] m [z Hz] _ IH]; simpl; [done|].
  simpl in Hz. subst v0. destruct (decide (k0 = k)); [|done].
  apply or_zero.
Qed.

Lemma Map_set_finite m k z :
  Forall (λ e, ∃ z, e.2 = #z) m →
  Forall (λ e, ∃ z, e.2 = #z) (Map_set m k #z).
Proof.
  induction 1 as [|[k0 v0] m Hz Hm IH]; simpl.
  - repeat constructor. simpl. eauto.
  - destruct (decide (k0 = k)); constructor; simpl; eauto.
Qed.

Lemma Map_set_sum m k z :
  foldr (λ e acc, (value_ms e.2 + acc)%Z) 0%Z (Map_set m k #z) =
  (foldr (λ e acc, (value_ms e.2 + acc)%Z) 0%Z m
   - value_ms (Map_get m k) + z)%Z.
Proof.
  induction m as [|[k0 v0] m IH]; simpl; [lia|].
  destruct (decide (k0 = k)); simpl; [|rewrite IH]; lia.
Qed.

(** ** What the loop leaves in the map *)

Section Tally.
Context (sel : session → Prop) `{!∀ s, Decision (sel s)}.

Lemma tally_snoc d s :
  tally sel (d ++ [s]) =
  if decide (sel s)
  then Map_set (tally sel d) (userId s)
         (JS.add (JS.or (Map_get (tally sel d) (userId s)) #0) (duration s))
  else tally sel d.
Proof. unfold tally. by rewrite foldl_snoc. Qed.

Lemma tally_NoDup d : NoDup (tally sel d).*1.
Proof.
  induction d as [|s d IH] using rev_ind; [constructor|].
  rewrite tally_snoc. case_decide; [by apply Map_set_NoDup|done].
Qed.

Lemma tally_keys d u :
  u ∈ (tally sel d).*1 ↔ ∃ s, s ∈ d ∧ sel s ∧ userId s = u.
Proof.
  induction d as [|s d IH] using rev_ind.
  - split; [by intros ?%elem_of_nil|]. by intros (s & ?%elem_of_nil & _).
  - rewrite tally_snoc. setoid_rewrite elem_of_app.
    setoid_rewrite list_elem_of_singleton.
    case_decide as Hs; [rewrite Map_set_keys|]; rewrite IH; split.
    + intros [(s' & ? & ? & ?)| ->]; [exists s'|exists s]; auto.
    + intros (s' & [?| ->] & ? & ?); [left; exists s'|right]; auto.
    + intros (s' & ? & ? & ?); exists s'; auto.
    + intros (s' & [?| ->] & ? & ?); [exists s'|]; done.
Qed.

Lemma tally_values d :
  (∀ s, s ∈ d → sel s → ∃ z, JS.ToNumber (duration s) = JS.Fin z) →
  Forall (λ e, ∃ z, e.2 = #z) (tally sel d) ∧
  (∀ u, value_ms (Map_get (tally sel d) u) =
        total_ms (filter (λ s, sel s ∧ userId s = u) d)) ∧
  foldr (λ e acc, (value_ms e.2 + acc)%Z) 0%Z (tally sel d) =
  total_ms (filter sel d).
Proof.
  induction d as [|s d IH] using rev_ind; intros Hfin.
  - by repeat split.
  - destruct IH as (Hall & Hget & Hsum).
    { intros s' Hs'. apply Hfin, elem_of_app. by left. }
    rewrite tally_snoc. setoid_rewrite filter_app.
    setoid_rewrite total_ms_app. setoid_rewrite filter_cons.
    destruct (decide (sel s)) as [Hs|Hs].
    + destruct (Hfin s) as [z Hz]; [apply elem_of_app; right; by left|done|].
      rewrite (Map_get_finite _ _ Hall).
      destruct (add_duration (value_ms (Map_get (tally sel d) (userId s)))
                  s z Hz) as [-> Hms].
      split_and!.
      * by apply Map_set_finite.
      * intros u. destruct (decide (userId s = u)) as [<-|Hne].
        -- rewrite Map_get_set_eq, decide_True by done. simpl.
           rewrite Hget, Hms. lia.
        -- rewrite Map_get_set_ne by done.
           rewrite decide_False by (by intros [_ ?]). simpl.
           rewrite Hget. lia.
      * rewrite Map_set_sum, Hsum. simpl. rewrite Hms. lia.
    + split_and!; [done| |simpl; lia].
      intros u. rewrite decide_False by (by intros [? _]). simpl.
      rewrite Hget. lia.
Qed.

End Tally.

Lemma tally_ext (sel sel' : session → Prop) `{!∀ s, Decision (sel s)}
    `{!∀ s, Decision (sel' s)} d :
  (∀ s, s ∈ d → sel s ↔ sel' s) → tally sel d = tally sel' d.
Proof.
  induction d as [|s d IH] using rev_ind; intros Hext; [done|].
  rewrite !tally_snoc, IH by (intros; apply Hext, elem_of_app; by left).
  assert (Hs : sel s ↔ sel' s).
  { apply Hext, elem_of_app. right. by left. }
  repeat case_decide; tauto.
Qed.

(** ** Sorting the rows *)

Lemma sort_insert_perm {A} (compareFn : A → A → JS.value) x l :
  sort_insert compareFn x l ≡ₚ x :: l.
Proof.
  induction l as [|y l IH]; simpl; [done|].
  destruct (sort_le compareFn x y); [done|].
  rewrite IH. apply Permutation_swap.
Qed.

Lemma sort_perm {A} (compareFn : A → A → JS.value) l :
  sort compareFn l ≡ₚ l.
Proof.
  induction l as [|x l IH]; simpl; [done|].
  unfold sort in *. simpl. by rewrite sort_insert_perm, IH.
Qed.

Lemma rows_sort_le r1 r2 :
  (∃ z, UserTotal.total r1 = #z) → (∃ z, UserTotal.total r2 = #z) →
  sort_le (λ a b, JS.sub (UserTotal.total b) (UserTotal.total a)) r1 r2 =
  bool_decide (row_ms r2 ≤ row_ms r1)%Z.
Proof.
  intros [z1 H1] [z2 H2]. unfold sort_le, row_ms. rewrite H1, H2. simpl.
  destruct (Z.leb_spec (z2 - z1) 0);
    [rewrite bool_decide_eq_true_2|rewrite bool_decide_eq_false_2]; lia.
Qed.

Lemma rows_sort_insert_sorted r l :
  (∃ z, UserTotal.total r = #z) →
  Forall (λ r, ∃ z, UserTotal.total r = #z) l →
  StronglySorted (λ r1 r2, (row_ms r2 ≤ row_ms r1)%Z) l →
  StronglySorted (λ r1 r2, (row_ms r2 ≤ row_ms r1)%Z)
    (sort_insert (λ a b, JS.sub (UserTotal.total b) (UserTotal.total a)) r l).
Proof.
  intros Hr Hl Hs. induction Hs as [|y l Hs IH Hy]; simpl.
  - repeat constructor.
  - apply Forall_cons in Hl as [Hfy Hl].
    rewrite rows_sort_le by done. case_bool_decide as Hle.
    + constructor; [by constructor|]. constructor; [done|].
      eapply Forall_impl; [exact Hy|]. simpl. intros; lia.
    + constructor; [by apply IH|].
      rewrite sort_insert_perm. constructor; [lia|done].
Qed.

Lemma rows_sort_sorted l :
  Forall (λ r, ∃ z, UserTotal.total r = #z) l →
  StronglySorted (λ r1 r2, (row_ms r2 ≤ row_ms r1)%Z)
    (sort (λ a b, JS.sub (UserTotal.total b) (UserTotal.total a)) l).
Proof.
  induction 1 as [|r l Hr Hl IH]; [constructor|].
  unfold sort in *. simpl. apply rows_sort_insert_sorted; [done| |done].
  fold (sort (λ a b, JS.sub (UserTotal.total b) (UserTotal.total a)) l).
  by rewrite sort_perm.
Qed.

Lemma rows_sum_perm (l k : list UserTotal.t) :
  l ≡ₚ k →
  foldr (λ r acc, (row_ms r + acc)%Z) 0%Z l =
  foldr (λ r acc, (row_ms r + acc)%Z) 0%Z k.
Proof. induction 1; simpl; lia. Qed.

Lemma rows_foldl_add l acc :
  Forall (λ r, ∃ z, UserTotal.total r = #z) l →
  foldl (λ a r, JS.add a (UserTotal.total r)) #acc l =
  #(acc + foldr (λ r acc, (row_ms r + acc)%Z) 0%Z l).
Proof.
  intros Hl. revert acc. induction Hl as [|r l [z Hz] _ IH]; intros acc;
    simpl.
  - by rewrite Z.add_0_r.
  - unfold row_ms at 1. rewrite Hz. unfold JS.add at 2. simpl.
    rewrite IH. f_equal. f_equal. lia.
Qed.

(** ** The leaderboard *)

Lemma foldl_ext_all {A B} (f g : A → B → A) l a :
  (∀ a x, f a x = g a x) → foldl f a l = foldl g a l.
Proof.
  intros Hfg. revert a. induction l as [|x l IH]; intros a; simpl; [done|].
  by rewrite Hfg, IH.
Qed.

Lemma IndexJs_totals_tally d guild dept startMs endMs :
  IndexJs.getDepartmentTotalsInRange d guild dept startMs endMs =
  sort (λ a b, JS.sub (UserTotal.total b) (UserTotal.total a))
       ((λ e, UserTotal.Make e.1 e.2) <$>
        tally (in_index_js departmentId guild dept startMs endMs) d).
Proof. reflexivity. Qed.

Lemma Part000_totals_tally d guild dept startMs endMs :
  Part000.getDepartmentTotalsInRange d guild dept startMs endMs =
  sort (λ a b, JS.sub (UserTotal.total b) (UserTotal.total a))
       ((λ e, UserTotal.Make e.1 e.2) <$>
        tally (in_part_000 departmentId guild dept startMs endMs) d).
Proof.
  unfold Part000.getDepartmentTotalsInRange, tally. do 2 f_equal.
  apply foldl_ext_all. intros totals s. cbn zeta.
  apply part_000_continues.
Qed.

(** Sorting the rows of a map filled through a test that agrees with the
    specification on every session gives the specified leaderboard. *)
Lemma tally_leaderboard (sel : session → Prop) `{!∀ s, Decision (sel s)}
    d guild dept startMs endMs :
  Forall consistent d →
  (∀ s, consistent s →
        sel s ↔ counted departmentId guild dept startMs endMs s) →
  leaderboard d guild dept startMs endMs
    (sort (λ a b, JS.sub (UserTotal.total b) (UserTotal.total a))
          ((λ e, UserTotal.Make e.1 e.2) <$> tally sel d)).
Proof.
  intros Hd Hsel.
  rewrite (tally_ext sel (counted departmentId guild dept startMs endMs))
    by (intros s Hs; apply Hsel; by eapply Forall_forall in Hd).
  set (spec := counted departmentId guild dept startMs endMs).
  set (m := tally spec d).
  set (rows := sort _ _).
  assert (Hperm : rows ≡ₚ (λ e, UserTotal.Make e.1 e.2) <$> m)
    by apply sort_perm.
  assert (Hkeys : UserTotal.userId <$> rows ≡ₚ m.*1).
  { rewrite Hperm, <- list_fmap_compose. done. }
  destruct (tally_values spec d) as (Hall & Hget & _).
  { intros s Hs (_ & _ & Hnn & _). apply consistent_finite; [|done].
    by eapply Forall_forall in Hd. }
  assert (Hfin : Forall (λ r, ∃ z, UserTotal.total r = #z)
                   ((λ e, UserTotal.Make e.1 e.2) <$> m)).
  { apply Forall_fmap. eapply Forall_impl; [exact Hall|]. done. }
  unfold leaderboard. split_and!.
  - rewrite Hkeys. apply tally_NoDup.
  - intros u. rewrite Hkeys. apply tally_keys.
  - intros r Hr. rewrite Hperm in Hr.
    apply list_elem_of_fmap in Hr as ([k v] & -> & Hkv).
    cbn [UserTotal.userId UserTotal.total fst snd].
    transitivity #(value_ms (Map_get m k)); [|do 2 f_equal; exact (Hget k)].
    rewrite (Map_get_elem m k v (tally_NoDup spec d) Hkv).
    eapply Forall_forall in Hall as [z Hz]; [|exact Hkv].
    simpl in Hz. by rewrite Hz.
  - by apply rows_sort_sorted.
Qed.

Lemma IndexJs_leaderboard d guild dept startMs endMs :
  Forall consistent d →
  leaderboard d guild dept startMs endMs
    (IndexJs.getDepartmentTotalsInRange d guild dept startMs endMs).
Proof.
  intros Hd. rewrite IndexJs_totals_tally.
  apply tally_leaderboard; [done|]. intros s. apply in_index_js_counted.
Qed.

Lemma Part000_leaderboard d guild dept startMs endMs :
  Forall consistent d →
  leaderboard d guild dept startMs endMs
    (Part000.getDepartmentTotalsInRange d guild dept startMs endMs).
Proof.
  intros Hd. rewrite Part000_totals_tally.
  apply tally_leaderboard; [done|]. intros s. apply in_part_000_counted.
Qed.

(** ** C3: the window is half-open *)

Lemma closed_in_at_start startMs endMs s :
  JS.eq_null (duration s) = false → clockOut s = #startMs →
  (startMs < endMs)%Z → closed_in startMs endMs s.
Proof. unfold closed_in. intros Hd -> Hlt. split; [done|lia]. Qed.

Lemma closed_in_at_end startMs endMs s :
  clockOut s = #endMs → ¬ closed_in startMs endMs s.
Proof. unfold closed_in. intros -> [_ H]. lia. Qed.

(** Consistency is what [index.js] relies on: it compares [clockOut]
    without checking it for [null], and [null >= 0] holds in JavaScript, so a
    record with a duration but no [clockOut] would fall into any window that
    contains 0.  [part_000] skips such a record. *)
Remark index_js_compares_null_clockOut :
  let s := Session "s1" "g" "u" "d" 0 JS.Null #5000 (JS.Bool false)
                   JS.Null #0 in
  ¬ consistent s ∧
  IndexJs.getUserTotalInRange [s] "g" "u" 0 1000 = #5000 ∧
  Part000.getUserTotalInRange [s] "g" "u" 0 1000 = #0.
Proof. split; [by intros []|by vm_compute]. Qed.

(** C3.  On consistent sessions, the three windowed queries of either copy
    count exactly the sessions of the guild and user (or department) whose
    [duration] is not [null] and whose [clockOut] lies in
    [[startMs, endMs)]: the two sums are the sums of those sessions'
    durations and the per-user rows are those of the specified leaderboard.
    A session closed at [startMs] is inside the window, one closed at
    [endMs] is outside. *)
Theorem C3_window_is_half_open d guild user dept startMs endMs :
  Forall consistent d →
  (IndexJs.getUserTotalInRange d guild user startMs endMs =
     #(total_ms (filter (counted userId guild user startMs endMs) d)) ∧
   Part000.getUserTotalInRange d guild user startMs endMs =
     #(total_ms (filter (counted userId guild user startMs endMs) d)) ∧
   IndexJs.getDepartmentTotalInRange d guild dept startMs endMs =
     #(total_ms (filter (counted departmentId guild dept startMs endMs) d)) ∧
   Part000.getDepartmentTotalInRange d guild dept startMs endMs =
     #(total_ms (filter (counted departmentId guild dept startMs endMs) d)) ∧
   leaderboard d guild dept startMs endMs
     (IndexJs.getDepartmentTotalsInRange d guild dept startMs endMs) ∧
   leaderboard d guild dept startMs endMs
     (Part000.getDepartmentTotalsInRange d guild dept startMs endMs)) ∧
  (∀ s, JS.eq_null (duration s) = false → clockOut s = #startMs →
        (startMs < endMs)%Z → closed_in startMs endMs s) ∧
  (∀ s, clockOut s = #endMs → ¬ closed_in startMs endMs s).
Proof.
  intros Hd.
  assert (Hfin : ∀ s, s ∈ d → JS.eq_null (duration s) = false →
                      ∃ z, JS.ToNumber (duration s) = JS.Fin z).
  { intros s Hs. apply consistent_finite. by eapply Forall_forall in Hd. }
  split_and!.
  - etrans; [exact (IndexJs_total_in_range userId _ _ _ _ d Hfin)|].
    f_equal. f_equal. f_equal. apply filter_counted; [done|].
    intros s. apply in_index_js_counted.
  - etrans; [exact (Part000_total_in_range userId _ _ _ _ d Hfin)|].
    f_equal. f_equal. f_equal. apply filter_counted; [done|].
    intros s. apply in_part_000_counted.
  - etrans; [exact (IndexJs_total_in_range departmentId _ _ _ _ d Hfin)|].
    f_equal. f_equal. f_equal. apply filter_counted; [done|].
    intros s. apply in_index_js_counted.
  - etrans; [exact (Part000_total_in_range departmentId _ _ _ _ d Hfin)|].
    f_equal. f_equal. f_equal. apply filter_counted; [done|].
    intros s. apply in_part_000_counted.
  - by apply IndexJs_leaderboard.
  - by apply Part000_leaderboard.
  - apply closed_in_at_start.
  - apply closed_in_at_end.
Qed.

Lemma C3_witness :
  let d := [Session "s1" "g" "u" "d" 0 #1000 #1000 (JS.Bool false)
                    JS.Null #0;
            Session "s2" "g" "u" "d" 1500 #2000 #500 (JS.Bool false)
                    JS.Null #0;
            Session "s3" "g" "u" "d" 2500 JS.Null JS.Null (JS.Bool false)
                    JS.Null #0] in
  IndexJs.getUserTotalInRange d "g" "u" 1000 2000 = #1000 ∧
  Part000.getUserTotalInRange d "g" "u" 1000 2000 = #1000.
Proof.
  intros d.
  destruct (C3_window_is_half_open d "g" "u" "d" 1000 2000)
    as ((HI & HP & _) & _).
  - repeat constructor.
  - split; [exact HI|exact HP].
Defined.

(** ** C7: the department leaderboard *)

(** C7.  On consistent sessions, [getDepartmentTotalsInRange] of either copy
    returns the specified leaderboard: one row per user with a session of
    the department closed inside the window, its total the sum of those
    sessions' durations, rows in descending order of total.  With 5000 ms
    for user A and 10000 ms for user B the rows are B with 10000, then A
    with 5000. *)
Theorem C7_department_leaderboard :
  (∀ d guild dept startMs endMs,
     Forall consistent d →
     leaderboard d guild dept startMs endMs
       (IndexJs.getDepartmentTotalsInRange d guild dept startMs endMs) ∧
     leaderboard d guild dept startMs endMs
       (Part000.getDepartmentTotalsInRange d guild dept startMs endMs)) ∧
  (let d := [Session "s1" "g" "A" "d" 0 #2000 #2000 (JS.Bool false)
                     JS.Null #0;
             Session "s2" "g" "B" "d" 0 #10000 #10000 (JS.Bool false)
                     JS.Null #0;
             Session "s3" "g" "A" "d" 3000 #6000 #3000 (JS.Bool false)
                     JS.Null #0] in
   IndexJs.getDepartmentTotalsInRange d "g" "d" 0 20000 =
     [UserTotal.Make "B" #10000; UserTotal.Make "A" #5000] ∧
   Part000.getDepartmentTotalsInRange d "g" "d" 0 20000 =
     [UserTotal.Make "B" #10000; UserTotal.Make "A" #5000]).
Proof.
  split.
  - intros d guild dept startMs endMs Hd.
    split; [by apply IndexJs_leaderboard|by apply Part000_leaderboard].
  - by vm_compute.
Qed.

Lemma C7_witness :
  let d := [Session "s1" "g" "A" "d" 0 #2000 #2000 (JS.Bool false)
                    JS.Null #0;
            Session "s2" "g" "B" "d" 0 #10000 #10000 (JS.Bool false)
                    JS.Null #0] in
  leaderboard d "g" "d" 0 20000
    (IndexJs.getDepartmentTotalsInRange d "g" "d" 0 20000) ∧
  leaderboard d "g" "d" 0 20000
    (Part000.getDepartmentTotalsInRange d "g" "d" 0 20000).
Proof.
  intros d. apply (proj1 C7_department_leaderboard d "g" "d" 0%Z 20000%Z).
  repeat constructor.
Defined.

(** ** C10: the department total is the sum of the rows *)

Lemma rows_sum_fmap (m : list (string * JS.value)) :
  foldr (λ r acc, (row_ms r + acc)%Z) 0%Z ((λ e, UserTotal.Make e.1 e.2) <$> m) =
  foldr (λ e acc, (value_ms e.2 + acc)%Z) 0%Z m.
Proof.
  induction m as [|e m IH]; [done|].
  rewrite fmap_cons. cbn [foldr]. by rewrite IH.
Qed.

Lemma tally_rows_sum (sel : session → Prop) `{!∀ s, Decision (sel s)} d :
  (∀ s, s ∈ d → sel s → ∃ z, JS.ToNumber (duration s) = JS.Fin z) →
  foldl (λ a r, JS.add a (UserTotal.total r)) #0
        (sort (λ a b, JS.sub (UserTotal.total b) (UserTotal.total a))
              ((λ e, UserTotal.Make e.1 e.2) <$> tally sel d)) =
  #(total_ms (filter sel d)).
Proof.
  intros Hfin. destruct (tally_values sel d Hfin) as (Hall & _ & Hsum).
  rewrite rows_foldl_add; cycle 1.
  { rewrite sort_perm. apply Forall_fmap.
    eapply Forall_impl; [exact Hall|]. done. }
  rewrite (rows_sum_perm _ _ (sort_perm _ _)), rows_sum_fmap, Hsum.
  reflexivity.
Qed.

(** C10.  For every loaded collection, guild, department and window,
    [getDepartmentTotalInRange] equals the sum of the [total] fields of the
    rows [getDepartmentTotalsInRange] returns for the same arguments, in
    either copy. *)
Theorem C10_total_is_sum_of_rows d guild dept startMs endMs :
  loaded d →
  IndexJs.getDepartmentTotalInRange d guild dept startMs endMs =
    foldl (λ a r, JS.add a (UserTotal.total r)) #0
          (IndexJs.getDepartmentTotalsInRange d guild dept startMs endMs) ∧
  Part000.getDepartmentTotalInRange d guild dept startMs endMs =
    foldl (λ a r, JS.add a (UserTotal.total r)) #0
          (Part000.getDepartmentTotalsInRange d guild dept startMs endMs).
Proof.
  intros Hd.
  assert (Hfin : ∀ s, s ∈ d → JS.eq_null (duration s) = false →
                      ∃ z, JS.ToNumber (duration s) = JS.Fin z).
  { intros s Hs. by apply (loaded_finite d). }
  split.
  - rewrite IndexJs_totals_tally, tally_rows_sum.
    + exact (IndexJs_total_in_range departmentId _ _ _ _ d Hfin).
    + intros s Hs (_ & _ & Hnn & _). by apply Hfin.
  - rewrite Part000_totals_tally, tally_rows_sum.
    + exact (Part000_total_in_range departmentId _ _ _ _ d Hfin).
    + intros s Hs (_ & _ & Hnn & _). by apply Hfin.
Qed.

Lemma C10_witness :
  let d := [Session "s1" "g" "A" "d" 0 #2000 #2000 (JS.Bool false)
                    JS.Null #0;
            Session "s2" "g" "B" "d" 0 #10000 #10000 (JS.Bool false)
                    JS.Null #0;
            Session "s3" "g" "A" "d" 3000 #6000 #3000 (JS.Bool false)
                    JS.Null #0] in
  IndexJs.getDepartmentTotalInRange d "g" "d" 0 20000 =
    foldl (λ a r, JS.add a (UserTotal.total r)) #0
          (IndexJs.getDepartmentTotalsInRange d "g" "d" 0 20000) ∧
  Part000.getDepartmentTotalInRange d "g" "d" 0 20000 =
    foldl (λ a r, JS.add a (UserTotal.total r)) #0
          (Part000.getDepartmentTotalsInRange d "g" "d" 0 20000).
Proof.
  intros d. apply (C10_total_is_sum_of_rows d "g" "d" 0%Z 20000%Z).
  reflexivity.
Defined.

(** * Further properties of the queries *)

(** The four sums of each copy, on consistent sessions, as sums over the
    sessions the specification counts. *)
Lemma user_total_counted d guild user startMs endMs :
  Forall consistent d →
  IndexJs.getUserTotalInRange d guild user startMs endMs =
    #(total_ms (filter (counted userId guild user startMs endMs) d)) ∧
  Part000.getUserTotalInRange d guild user startMs endMs =
    #(total_ms (filter (counted userId guild user startMs endMs) d)).
Proof.
  intros Hd.
  assert (Hfin : ∀ s, s ∈ d → JS.eq_null (duration s) = false →
                      ∃ z, JS.ToNumber (duration s) = JS.Fin z).
  { intros s Hs. apply consistent_finite. by eapply Forall_forall in Hd. }
  split.
  - etrans; [exact (IndexJs_total_in_range userId _ _ _ _ d Hfin)|].
    do 3 f_equal. apply filter_counted; [done|].
    intros s. apply in_index_js_counted.
  - etrans; [exact (Part000_total_in_range userId _ _ _ _ d Hfin)|].
    do 3 f_equal. apply filter_counted; [done|].
    intros s. apply in_part_000_counted.
Qed.

Lemma department_total_counted d guild dept startMs endMs :
  Forall consistent d →
  IndexJs.getDepartmentTotalInRange d guild dept startMs endMs =
    #(total_ms (filter (counted departmentId guild dept startMs endMs) d)) ∧
  Part000.getDepartmentTotalInRange d guild dept startMs endMs =
    #(total_ms (filter (counted departmentId guild dept startMs endMs) d)).
Proof.
  intros Hd.
  assert (Hfin : ∀ s, s ∈ d → JS.eq_null (duration s) = false →
                      ∃ z, JS.ToNumber (duration s) = JS.Fin z).
  { intros s Hs. apply consistent_finite. by eapply Forall_forall in Hd. }
  split.
  - etrans; [exact (IndexJs_total_in_range departmentId _ _ _ _ d Hfin)|].
    do 3 f_equal. apply filter_counted; [done|].
    intros s. apply in_index_js_counted.
  - etrans; [exact (Part000_total_in_range departmentId _ _ _ _ d Hfin)|].
    do 3 f_equal. apply filter_counted; [done|].
    intros s. apply in_part_000_counted.
Qed.

Lemma counted_split who guild x a b c (d : list session) :
  (a ≤ b ≤ c)%Z →
  (total_ms (filter (counted who guild x a b) d) +
   total_ms (filter (counted who guild x b c) d))%Z =
  total_ms (filter (counted who guild x a c) d).
Proof.
  intros Habc. induction d as [|s d IH]; [done|].
  rewrite !filter_cons.
  assert (Hcases :
    (counted who guild x a b s ∧ ¬ counted who guild x b c s ∧
     counted who guild x a c s) ∨
    (¬ counted who guild x a b s ∧ counted who guild x b c s ∧
     counted who guild x a c s) ∨
    (¬ counted who guild x a b s ∧ ¬ counted who guild x b c s ∧
     ¬ counted who guild x a c s)).
  { unfold counted, closed_in.
    destruct (decide (guildId s = guild)); [|tauto].
    destruct (decide (who s = x)); [|tauto].
    destruct (JS.eq_null (duration s)); [intuition congruence|].
    destruct (clockOut s) as [| | |[|t]]; try tauto.
    destruct (decide (t < a)%Z); [right; right; intuition lia|].
    destruct (decide (t < b)%Z); [left; intuition lia|].
    destruct (decide (t < c)%Z); [right; left; intuition lia|].
    right; right; intuition lia. }
  destruct Hcases as [(H1&H2&H3)|[(H1&H2&H3)|(H1&H2&H3)]];
    repeat first [rewrite decide_True by done|rewrite decide_False by done];
    simpl; lia.
Qed.

(** X1.  Windows add up: for [a <= b <= c], the total over [[a, b)] plus the
    total over [[b, c)] is the total over [[a, c)], for the per-user and the
    per-department sum of either copy. *)
Theorem X1_adjacent_windows_add_up d guild user dept a b c :
  Forall consistent d → (a ≤ b ≤ c)%Z →
  JS.add (IndexJs.getUserTotalInRange d guild user a b)
         (IndexJs.getUserTotalInRange d guild user b c) =
    IndexJs.getUserTotalInRange d guild user a c ∧
  JS.add (Part000.getUserTotalInRange d guild user a b)
         (Part000.getUserTotalInRange d guild user b c) =
    Part000.getUserTotalInRange d guild user a c ∧
  JS.add (IndexJs.getDepartmentTotalInRange d guild dept a b)
         (IndexJs.getDepartmentTotalInRange d guild dept b c) =
    IndexJs.getDepartmentTotalInRange d guild dept a c ∧
  JS.add (Part000.getDepartmentTotalInRange d guild dept a b)
         (Part000.getDepartmentTotalInRange d guild dept b c) =
    Part000.getDepartmentTotalInRange d guild dept a c.
Proof.
  intros Hd Habc.
  pose proof (λ x y, user_total_counted d guild user x y Hd) as Hu.
  pose proof (λ x y, department_total_counted d guild dept x y Hd) as Hp.
  rewrite !(proj1 (Hu _ _)), !(proj2 (Hu _ _)),
          !(proj1 (Hp _ _)), !(proj2 (Hp _ _)).
  unfold JS.add; cbn [JS.ToNumber JS.nadd].
  rewrite !counted_split by done. done.
Qed.

Lemma X1_witness :
  let d := [Session "s1" "g" "u" "d" 0 #1000 #1000 (JS.Bool false)
                    JS.Null #0;
            Session "s2" "g" "u" "d" 1500 #2500 #1000 (JS.Bool false)
                    JS.Null #0] in
  JS.add (IndexJs.getUserTotalInRange d "g" "u" 0 2000)
         (IndexJs.getUserTotalInRange d "g" "u" 2000 3000) =
    IndexJs.getUserTotalInRange d "g" "u" 0 3000.
Proof.
  intros d.
  refine (proj1 (X1_adjacent_windows_add_up d "g" "u" "d" 0 2000 3000 _ _)).
  - repeat constructor.
  - lia.
Defined.

Lemma filter_none {A} (P : A → Prop) `{!∀ x, Decision (P x)} (l : list A) :
  (∀ x, x ∈ l → ¬ P x) → filter P l = [].
Proof.
  induction l as [|x l IH]; intros HP; [done|].
  rewrite filter_cons_False by (apply HP; by left).
  apply IH. intros y Hy. apply HP. by right.
Qed.

Lemma tally_none (sel : session → Prop) `{!∀ s, Decision (sel s)} d :
  (∀ s, s ∈ d → ¬ sel s) → tally sel d = [].
Proof.
  induction d as [|s d IH] using rev_ind; intros Hsel; [done|].
  rewrite tally_snoc, decide_False by (apply Hsel, elem_of_app; right; by left).
  apply IH. intros s' Hs'. apply Hsel, elem_of_app. by left.
Qed.

Lemma in_index_js_window who guild x startMs endMs s :
  in_index_js who guild x startMs endMs s → (startMs < endMs)%Z.
Proof.
  unfold in_index_js, JS.ge, JS.lt. intros (_ & _ & _ & Hge & Hlt).
  destruct (JS.ToNumber (clockOut s)) as [|c]; [done|]. simpl in *.
  apply Z.leb_le in Hge. apply Z.ltb_lt in Hlt. lia.
Qed.

Lemma in_part_000_window who guild x startMs endMs f s :
  loaded f → s ∈ f →
  in_part_000 who guild x startMs endMs s → (startMs < endMs)%Z.
Proof.
  intros Hf Hs (_ & _ & _ & Hnn & Hout).
  pose proof (loaded_elem f s Hf Hs) as E.
  apply (f_equal clockOut) in E. simpl in E.
  apply orb_false_iff in Hout as [Hlt Hge]. unfold JS.ge, JS.lt in *.
  destruct (clockOut s) as [| |[|]|[|c]]; try done; simpl in *;
    apply Z.ltb_ge in Hlt; apply Z.leb_gt in Hge; lia.
Qed.

(** X2.  A window that is empty or runs backwards ([endMs <= startMs])
    selects nothing: on a loaded collection every windowed sum of either copy
    is 0 and the leaderboard has no rows. *)
Theorem X2_empty_window d guild x startMs endMs :
  loaded d → (endMs ≤ startMs)%Z →
  IndexJs.getUserTotalInRange d guild x startMs endMs = #0 ∧
  Part000.getUserTotalInRange d guild x startMs endMs = #0 ∧
  IndexJs.getDepartmentTotalInRange d guild x startMs endMs = #0 ∧
  Part000.getDepartmentTotalInRange d guild x startMs endMs = #0 ∧
  IndexJs.getDepartmentTotalsInRange d guild x startMs endMs = [] ∧
  Part000.getDepartmentTotalsInRange d guild x startMs endMs = [].
Proof.
  intros Hd Hle.
  assert (Hfin : ∀ s, s ∈ d → JS.eq_null (duration s) = false →
                      ∃ z, JS.ToNumber (duration s) = JS.Fin z).
  { intros s Hs. by apply (loaded_finite d). }
  assert (HI : ∀ who s, s ∈ d → ¬ in_index_js who guild x startMs endMs s).
  { intros who s _ Hin. apply in_index_js_window in Hin. lia. }
  assert (HP : ∀ who s, s ∈ d → ¬ in_part_000 who guild x startMs endMs s).
  { intros who s Hs Hin. apply (in_part_000_window _ _ _ _ _ d) in Hin;
      [lia|done..]. }
  split_and!.
  - etrans; [exact (IndexJs_total_in_range userId _ _ _ _ d Hfin)|].
    by rewrite filter_none by apply HI.
  - etrans; [exact (Part000_total_in_range userId _ _ _ _ d Hfin)|].
    by rewrite filter_none by apply HP.
  - etrans; [exact (IndexJs_total_in_range departmentId _ _ _ _ d Hfin)|].
    by rewrite filter_none by apply HI.
  - etrans; [exact (Part000_total_in_range departmentId _ _ _ _ d Hfin)|].
    by rewrite filter_none by apply HP.
  - rewrite IndexJs_totals_tally. by rewrite tally_none by apply HI.
  - rewrite Part000_totals_tally. by rewrite tally_none by apply HP.
Qed.

Lemma X2_witness :
  let d := [Session "s1" "g" "u" "d" 0 #1000 #1000 (JS.Bool false)
                    JS.Null #0] in
  IndexJs.getUserTotalInRange d "g" "u" 1000 1000 = #0 ∧
  Part000.getUserTotalInRange d "g" "u" 1000 1000 = #0.
Proof.
  intros d.
  destruct (X2_empty_window d "g" "u" 1000 1000) as (HI & HP & _).
  - reflexivity.
  - lia.
  - by split.
Defined.

Lemma total_ms_filter_le (P Q : session → Prop) `{!∀ s, Decision (P s)}
    `{!∀ s, Decision (Q s)} (d : list session) :
  (∀ s, P s → Q s) → (∀ s, s ∈ d → (0 ≤ duration_ms s)%Z) →
  (0 ≤ total_ms (filter P d) ≤ total_ms (filter Q d))%Z.
Proof.
  intros HPQ. induction d as [|s d IH]; intros Hpos; [simpl; lia|].
  rewrite !filter_cons.
  assert (0 ≤ duration_ms s)%Z by (apply Hpos; by left).
  assert (0 ≤ total_ms (filter P d) ≤ total_ms (filter Q d))%Z
    by (apply IH; intros; apply Hpos; by right).
  destruct (decide (P s)) as [HP|HP], (decide (Q s)) as [HQ|HQ]; simpl;
    try lia.
  by destruct HQ; apply HPQ.
Qed.

Lemma user_total_duration d guild user :
  (∀ s, s ∈ d → JS.eq_null (duration s) = false →
        ∃ z, JS.ToNumber (duration s) = JS.Fin z) →
  IndexJs.getUserTotalDuration d guild user =
    #(total_ms (filter (λ s, guildId s = guild ∧ userId s = user ∧
                             JS.eq_null (duration s) = false) d)) ∧
  Part000.getUserTotalDuration d guild user =
    #(total_ms (filter (λ s, guildId s = guild ∧ userId s = user ∧
                             JS.eq_null (duration s) = false) d)).
Proof.
  intros Hfin.
  unfold IndexJs.getUserTotalDuration, Part000.getUserTotalDuration.
  rewrite foldl_add_total; [done|].
  intros s [(_ & _ & Hnn) Hs]%list_elem_of_filter. by apply Hfin.
Qed.

(** X3.  With no negative duration stored, what a user has inside a window
    never exceeds the user's all-time total, and neither is negative; both
    copies compute the same two numbers. *)
Theorem X3_window_within_all_time d guild user startMs endMs :
  Forall consistent d → (∀ s, s ∈ d → (0 ≤ duration_ms s)%Z) →
  ∃ w t,
    IndexJs.getUserTotalInRange d guild user startMs endMs = #w ∧
    Part000.getUserTotalInRange d guild user startMs endMs = #w ∧
    IndexJs.getUserTotalDuration d guild user = #t ∧
    Part000.getUserTotalDuration d guild user = #t ∧
    (0 ≤ w ≤ t)%Z.
Proof.
  intros Hd Hpos.
  destruct (user_total_counted d guild user startMs endMs Hd) as [-> ->].
  destruct (user_total_duration d guild user) as [-> ->].
  { intros s Hs. apply consistent_finite. by eapply Forall_forall in Hd. }
  eexists _, _. do 4 (split; [reflexivity|]).
  apply total_ms_filter_le; [|done].
  intros s (Hg & Hu & Hnn & _). done.
Qed.

Lemma X3_witness :
  let d := [Session "s1" "g" "u" "d" 0 #1000 #1000 (JS.Bool false)
                    JS.Null #0;
            Session "s2" "g" "u" "e" 1500 #2500 #1000 (JS.Bool false)
                    JS.Null #0] in
  ∃ w t,
    IndexJs.getUserTotalInRange d "g" "u" 0 2000 = #w ∧
    Part000.getUserTotalInRange d "g" "u" 0 2000 = #w ∧
    IndexJs.getUserTotalDuration d "g" "u" = #t ∧
    Part000.getUserTotalDuration d "g" "u" = #t ∧
    (0 ≤ w ≤ t)%Z.
Proof.
  intros d. apply (X3_window_within_all_time d "g" "u" 0 2000).
  - repeat constructor.
  - intros s Hs. repeat (apply elem_of_cons in Hs as [->|Hs]; [by vm_compute|]).
    by apply elem_of_nil in Hs.
Defined.

(** * Further properties of the store and the handler *)

(** ** What a press touches *)

Lemma same_identity_refl s : same_identity s s.
Proof. by unfold same_identity. Qed.

Lemma same_identity_trans s1 s2 s3 :
  same_identity s1 s2 → same_identity s2 s3 → same_identity s1 s3.
Proof.
  unfold same_identity. intros (?&?&?&?&?) (?&?&?&?&?).
  split_and!; congruence.
Qed.

Lemma same_identity_stringify s : same_identity s (stringify_parse s).
Proof. by unfold same_identity. Qed.

Lemma touched_refl s : touched s s.
Proof. by unfold touched, same_identity. Qed.

Lemma touched_fill s : touched s (Part000.fill_break_fields s).
Proof.
  rewrite fill_break_fields_defaults.
  destruct (with_defaults_keeps s) as (? & ? & ? & ? & ?).
  unfold touched, same_identity. split_and!; try done;
    unfold with_defaults; by repeat case_match.
Qed.

Lemma IndexJs_frame f ev : framed f ev (IndexJs.handleClockButton f ev).2.
Proof.
  unfold framed, IndexJs.handleClockButton, loadData.
  rewrite IndexJs_getActiveSession_eq. cbn [data file].
  destruct (action ev) eqn:Ha;
    destruct (list_find (open_for _ _ _) f) as [[i a]|] eqn:Hact;
    cbn [snd]; auto.
  - (* break *)
    pose proof Hact as (Hi & _ & _)%list_find_Some.
    assert (Hlt : i < length f) by (by eapply lookup_lt_Some).
    right; right. destruct (negb _); cbn [snd saveData data file];
      eexists i, a, _, i, _, _; (split_and!;
        [done| |by apply list_lookup_insert_eq| |left; apply touched_refl
        |by rewrite list_insert_insert_eq]); by unfold touched, same_identity.
  - (* clockout *)
    pose proof Hact as (Hi & _ & _)%list_find_Some.
    unfold IndexJs.closeSession. cbn [data file].
    destruct (list_find (λ x, id x = id a) f) as [[j s]|] eqn:Hfind;
      cbn [snd saveData data file]; auto.
    pose proof Hfind as (Hj & Hid & _)%list_find_Some.
    right; right. eexists i, a, a, j, s, _.
    rewrite (list_insert_id f i a Hi).
    split_and!; [done|apply touched_refl|done|done| |reflexivity].
    right. unfold closed_at, same_identity.
    destruct (_ && _); cbn; split_and!; try done; unfold JS.Math_max;
      repeat case_match; eauto.
Qed.

Lemma Part000_frame f ev : framed f ev (Part000.handleClockButton f ev).2.
Proof.
  unfold framed, Part000.handleClockButton, loadData.
  rewrite !Part000_getActiveSession_eq. cbn [data file].
  destruct (action ev) eqn:Ha; cbn [snd]; auto;
    destruct (list_find (open_for _ _ _) f) as [[i a]|] eqn:Hact;
    cbn [snd]; auto.
  - (* break *)
    pose proof Hact as (Hi & _ & _)%list_find_Some.
    assert (Hlt : i < length f) by (by eapply lookup_lt_Some).
    pose proof (touched_fill a) as Hfill.
    right; right. destruct (negb _); cbn [snd saveData data file];
      eexists i, a, (Part000.fill_break_fields a), i, _, _; (split_and!;
        [done|done|by apply list_lookup_insert_eq|apply Hfill| |reflexivity]);
      left; by unfold touched, same_identity.
  - (* clockout *)
    pose proof Hact as (Hi & _ & _)%list_find_Some.
    pose proof (touched_fill a) as Hfill.
    unfold Part000.closeSession. cbn [data file].
    destruct (list_find (λ sess, id sess = id (Part000.fill_break_fields a)) _)
      as [[j s]|] eqn:Hfind; cbn [snd saveData data file]; auto.
    pose proof Hfind as (Hj & Hid & _)%list_find_Some.
    right; right. eexists i, a, (Part000.fill_break_fields a), j, s, _.
    split_and!; [done|done|done| | |reflexivity].
    + rewrite Hid. apply Hfill.
    + right. pose proof (touched_fill s) as ((?&?&?&?&?)&_).
      unfold closed_at, same_identity. cbn. split_and!; try done.
      unfold JS.Math_max; repeat case_match; eauto.
Qed.

Lemma Forall2_same_identity_refl f : Forall2 same_identity f f.
Proof. induction f; constructor; auto using same_identity_refl. Qed.

Lemma Forall2_same_identity_insert f d i s s' :
  Forall2 same_identity f d → d !! i = Some s → same_identity s s' →
  Forall2 same_identity f (<[i:=s']> d).
Proof.
  intros HF Hi Hs.
  destruct (Forall2_lookup_r _ _ _ _ _ HF Hi) as (x & Hx & Hxs).
  rewrite <- (list_insert_id f i x Hx).
  apply Forall2_insert; [done|]. by eapply same_identity_trans.
Qed.

Lemma Forall2_same_identity_saved f d :
  Forall2 same_identity f d →
  Forall2 same_identity f (stringify_parse <$> d).
Proof.
  intros HF. apply Forall2_fmap_r.
  eapply Forall2_impl; [exact HF|]. intros x y Hxy.
  eapply same_identity_trans; [exact Hxy|apply same_identity_stringify].
Qed.

Lemma Forall2_same_identity_ids f d :
  Forall2 same_identity f d → id <$> d = id <$> f.
Proof.
  induction 1 as [|s s' f d (Hid&_) _ IH]; [done|].
  rewrite !fmap_cons. congruence.
Qed.

(** The sessions of the old file, each with its identity, make up the front
    of the new one; at most one session is added behind them. *)
Lemma framed_kept f ev f' :
  framed f ev f' →
  ∃ kept added,
    f' = kept ++ added ∧ Forall2 same_identity f kept ∧
    (added = [] ∨
     added = [new_session ev] ∧ action ev = clockin ∧
     list_find (open_for (guild ev) (user ev) (dept ev)) f = None).
Proof.
  intros [->|[(Ha & Hnone & ->)|(i & a & a' & j & s & s' & Hact & Ha' & Hj &
                                 _ & Hs' & ->)]].
  - exists f, []. rewrite app_nil_r.
    split_and!; [done|apply Forall2_same_identity_refl|by left].
  - exists (stringify_parse <$> f), [new_session ev].
    rewrite fmap_app. split_and!; [done| |by right].
    apply Forall2_same_identity_saved, Forall2_same_identity_refl.
  - eexists _, []. rewrite app_nil_r. split_and!; [done| |by left].
    apply Forall2_same_identity_saved.
    apply list_find_Some in Hact as (Hi & _).
    eapply Forall2_same_identity_insert; [|exact Hj|].
    + eapply Forall2_same_identity_insert;
        [apply Forall2_same_identity_refl|exact Hi|apply Ha'].
    + destruct Hs' as [Hs'|Hs']; apply Hs'.
Qed.

(** X4.  The store is append-only and a session's identity is for life:
    after any press, with either copy, every session of the old file is
    still at its place with the same [id], guild, user, department and
    [clockIn], and at most one session has been added, which happens only on
    a clock-in for a key without an open session. *)
Theorem X4_append_only f ev :
  (∃ kept added,
     (IndexJs.handleClockButton f ev).2 = kept ++ added ∧
     Forall2 same_identity f kept ∧
     (added = [] ∨
      added = [new_session ev] ∧ action ev = clockin ∧
      list_find (open_for (guild ev) (user ev) (dept ev)) f = None)) ∧
  (∃ kept added,
     (Part000.handleClockButton f ev).2 = kept ++ added ∧
     Forall2 same_identity f kept ∧
     (added = [] ∨
      added = [new_session ev] ∧ action ev = clockin ∧
      list_find (open_for (guild ev) (user ev) (dept ev)) f = None)).
Proof.
  split; apply framed_kept; [apply IndexJs_frame|apply Part000_frame].
Qed.

(** Ids stay distinct as long as a clock-in brings a new one. *)
Lemma framed_ids f ev f' :
  framed f ev f' → NoDup (id <$> f) → fresh ev ∉ id <$> f →
  NoDup (id <$> f') ∧ (∀ x, x ∈ id <$> f' → x ∈ id <$> f ∨ x = fresh ev).
Proof.
  intros Hfr Hnd Hfresh.
  destruct (framed_kept f ev f' Hfr) as (kept & added & -> & Hkept & Hadd).
  apply Forall2_same_identity_ids in Hkept.
  rewrite fmap_app, Hkept.
  destruct Hadd as [->|(-> & _)]; simpl.
  - rewrite app_nil_r. auto.
  - split.
    + apply NoDup_app. split_and!; [done| |apply NoDup_singleton].
      intros x Hx Hx'%list_elem_of_singleton. by subst.
    + intros x [?|Hx%list_elem_of_singleton]%elem_of_app; auto.
Qed.

(** X5.  Session ids stay distinct: if they are distinct in the file and the
    id a clock-in would generate is not among them, they are distinct after
    the press, with either copy. *)
Theorem X5_ids_stay_distinct f ev :
  NoDup (id <$> f) → fresh ev ∉ id <$> f →
  NoDup (id <$> (IndexJs.handleClockButton f ev).2) ∧
  NoDup (id <$> (Part000.handleClockButton f ev).2).
Proof.
  intros Hnd Hfresh. split.
  - by apply (framed_ids f ev _ (IndexJs_frame f ev)).
  - by apply (framed_ids f ev _ (Part000_frame f ev)).
Qed.

Lemma X5_witness :
  let f := [Session "s1" "g" "u" "d" 0 #5 #5 (JS.Bool false) JS.Null #0] in
  let ev := Interaction clockin "g" "u" "d" 10 "s2" in
  NoDup (id <$> (IndexJs.handleClockButton f ev).2) ∧
  NoDup (id <$> (Part000.handleClockButton f ev).2).
Proof.
  intros f ev. apply (X5_ids_stay_distinct f ev).
  - apply NoDup_singleton.
  - by intros [=]%list_elem_of_singleton.
Defined.

(** With distinct ids a press rewrites one session at most, the open
    session of its key. *)
Lemma framed_one f ev f' :
  framed f ev f' → NoDup (id <$> f) →
  f' = f ∨
  (f' = stringify_parse <$> (f ++ [new_session ev])) ∨
  (∃ i a s', list_find (open_for (guild ev) (user ev) (dept ev)) f =
               Some (i, a) ∧
             f' = stringify_parse <$> <[i:=s']> f).
Proof.
  intros [->|[(Ha & Hnone & ->)|(i & a & a' & j & s & s' & Hact & Ha' & Hj &
                                 Hid & Hs' & ->)]] Hnd; auto.
  right; right. exists i, a, s'. split; [done|].
  pose proof Hact as (Hi & _)%list_find_Some.
  assert (Hlt : i < length f) by (by eapply lookup_lt_Some).
  assert (j = i) as ->; [|by rewrite list_insert_insert_eq].
  assert (Hids : id <$> <[i:=a']> f = id <$> f).
  { rewrite list_fmap_insert. apply list_insert_id.
    rewrite list_lookup_fmap, Hi. simpl. f_equal.
    destruct Ha' as ((Hida & _) & _). by rewrite Hida. }
  eapply (NoDup_lookup (id <$> f) j i (id a)); [done|..].
  - rewrite <- Hids, list_lookup_fmap, Hj. simpl. by rewrite Hid.
  - by rewrite list_lookup_fmap, Hi.
Qed.

(** X6.  A closed session is final: with distinct ids, no press changes a
    session whose [clockOut] is set; it is read back from the new file at
    the same place, field for field. *)
Theorem X6_closed_sessions_are_final f ev k s :
  loaded f → NoDup (id <$> f) →
  f !! k = Some s → JS.eq_null (clockOut s) = false →
  (IndexJs.handleClockButton f ev).2 !! k = Some s ∧
  (Part000.handleClockButton f ev).2 !! k = Some s.
Proof.
  intros Hf Hnd Hk Hclosed.
  assert (Hs : stringify_parse s = s).
  { apply (loaded_elem f); [done|]. apply list_elem_of_lookup; eauto. }
  assert (H : ∀ f', framed f ev f' → f' !! k = Some s).
  { intros f' Hfr.
    destruct (framed_one f ev f' Hfr Hnd)
      as [->|[->|(i & a & s' & Hact & ->)]]; [done|..].
    - rewrite list_lookup_fmap, lookup_app_l by (by eapply lookup_lt_Some).
      by rewrite Hk; simpl; rewrite Hs.
    - apply list_find_Some in Hact as (Hi & (_&_&_&Hopen) & _).
      rewrite list_lookup_fmap, list_lookup_insert_ne.
      + by rewrite Hk; simpl; rewrite Hs.
      + intros ->. rewrite Hi in Hk. injection Hk as ->. congruence. }
  split; apply H; [apply IndexJs_frame|apply Part000_frame].
Qed.

Lemma X6_witness :
  let s := Session "s1" "g" "u" "d" 0 #5 #5 (JS.Bool false) JS.Null #0 in
  let f := [s; Session "s2" "g" "u" "d" 7 JS.Null JS.Null (JS.Bool false)
                       JS.Null #0] in
  let ev := Interaction clockout "g" "u" "d" 10 "s3" in
  (IndexJs.handleClockButton f ev).2 !! 0 = Some s ∧
  (Part000.handleClockButton f ev).2 !! 0 = Some s.
Proof.
  intros s f ev. apply (X6_closed_sessions_are_final f ev 0 s).
  - reflexivity.
  - apply NoDup_cons. split; [|apply NoDup_singleton].
    by intros [=]%list_elem_of_singleton.
  - reflexivity.
  - reflexivity.
Defined.

(** ** Typing is kept *)

Lemma consistent_stringify s : consistent s → consistent (stringify_parse s).
Proof.
  unfold consistent; simpl.
  destruct (duration s) as [| |b|[|z]]; try done; simpl.
  by destruct (clockOut s) as [| |b|[|c]].
Qed.

Lemma framed_consistent f ev f' :
  framed f ev f' → Forall consistent f → Forall consistent f'.
Proof.
  intros [->|[(Ha & Hnone & ->)|(i & a & a' & j & s & s' & Hact & Ha' & Hj &
                                 Hid & Hs' & ->)]] Hf; [done|..].
  - apply Forall_fmap, Forall_app. split.
    + eapply Forall_impl; [exact Hf|]. apply consistent_stringify.
    + by repeat constructor.
  - apply list_find_Some in Hact as (Hi & _).
    assert (Hca : consistent a) by (by eapply Forall_lookup_1 in Hf).
    assert (Hca' : consistent a').
    { destruct Ha' as (_ & Hco & Hdu). unfold consistent in *.
      by rewrite Hco, Hdu. }
    assert (Hf1 : Forall consistent (<[i:=a']> f)) by (by apply Forall_insert).
    apply Forall_fmap, Forall_insert.
    + eapply Forall_impl; [exact Hf1|]. apply consistent_stringify.
    + destruct Hs' as [(_ & Hco & Hdu)|(_ & Hco & n & Hdu)].
      * apply consistent_stringify.
        eapply Forall_lookup_1 in Hf1; [|exact Hj].
        unfold consistent in *. by rewrite Hco, Hdu.
      * unfold consistent; simpl. rewrite Hco, Hdu. by destruct n.
Qed.

(** X7.  The typing the windowed queries rely on is an invariant of the
    handler: starting from a loaded file of consistent sessions, every file a
    sequence of presses goes through is again loaded and made of consistent
    sessions, with either copy. *)
Theorem X7_presses_keep_typing f evs :
  loaded f → Forall consistent f →
  Forall (λ f', loaded f' ∧ Forall consistent f')
         (states IndexJs.handleClockButton f evs) ∧
  Forall (λ f', loaded f' ∧ Forall consistent f')
         (states Part000.handleClockButton f evs).
Proof.
  intros Hl Hc.
  assert (Hstep : ∀ f ev f', framed f ev f' → loaded f → loaded f').
  { intros f0 ev f' [->|[(_ & _ & ->)|(i & a & a' & j & s & s' & _ & _ & _ &
                                        _ & _ & ->)]] Hf0;
      [done|apply saved_is_loaded..]. }
  split; revert f Hl Hc; induction evs as [|ev evs IH]; intros f Hl Hc;
    simpl; constructor; try done; try constructor; apply IH.
  - eapply Hstep; [apply IndexJs_frame|done].
  - eapply framed_consistent; [apply IndexJs_frame|done].
  - eapply Hstep; [apply Part000_frame|done].
  - eapply framed_consistent; [apply Part000_frame|done].
Qed.

Lemma X7_witness :
  let f := [Session "s1" "g" "u" "d" 0 JS.Null JS.Null JS.Undefined
                    JS.Undefined JS.Undefined] in
  let evs := [Interaction break "g" "u" "d" 5 "s2";
              Interaction clockout "g" "u" "d" 9 "s3"] in
  Forall (λ f', loaded f' ∧ Forall consistent f')
         (states IndexJs.handleClockButton f evs).
Proof.
  intros f evs. refine (proj1 (X7_presses_keep_typing f evs _ _)).
  - reflexivity.
  - repeat constructor.
Defined.

(** ** [closeSession] and its callers *)

(** X8.  [closeSession] returns [null] exactly when no session carries the
    id, and then it leaves the store as it was (nothing is written). *)
Theorem X8_close_unknown_id st sid t :
  ((IndexJs.closeSession st sid t).1 = None ↔ sid ∉ id <$> data st) ∧
  ((Part000.closeSession st sid t).1 = None ↔ sid ∉ id <$> data st) ∧
  (sid ∉ id <$> data st →
   IndexJs.closeSession st sid t = (None, st) ∧
   Part000.closeSession st sid t = (None, st)).
Proof.
  assert (Hnone : list_find (λ x, id x = sid) (data st) = None ↔
                  sid ∉ id <$> data st).
  { rewrite list_find_None, Forall_forall. split.
    - intros H (s & -> & Hs)%list_elem_of_fmap. by apply (H s).
    - intros H s Hs Hid. apply H, list_elem_of_fmap. by exists s. }
  unfold IndexJs.closeSession, Part000.closeSession.
  destruct (list_find (λ x, id x = sid) (data st)) as [[i s]|] eqn:Hfind;
    cbn [fst].
  - split_and!; [split; [done|]..|]; intros H%Hnone; done.
  - split_and!; [split; [by intros _; apply Hnone|done]..|done].
Qed.

(** X9.  The clock-out branch never fails: [index.js] never reads a field of
    a [null] result (no exception), and [part_000] never sends its "error
    ending your session" reply, because the session just found by
    [getActiveSession] is found again by its id. *)
Theorem X9_clock_out_never_fails f ev :
  (IndexJs.handleClockButton f ev).1 ≠ Threw ∧
  (Part000.handleClockButton f ev).1 ≠
    Content "There was an error ending your session.".
Proof.
  assert (Hfound : ∀ (d : list session) i a,
    d !! i = Some a → is_Some (list_find (λ x, id x = id a) d)).
  { intros d i a Hi. eapply list_find_elem_of; [|done].
    apply list_elem_of_lookup; eauto. }
  split.
  - unfold IndexJs.handleClockButton, loadData.
    rewrite IndexJs_getActiveSession_eq. cbn [data file].
    destruct (action ev);
      destruct (list_find (open_for _ _ _) f) as [[i a]|] eqn:Hact;
      try done; try (by destruct (negb _)).
    apply list_find_Some in Hact as (Hi & _).
    unfold IndexJs.closeSession. cbn [data].
    by destruct (Hfound f i a Hi) as [[j s] ->].
  - unfold Part000.handleClockButton, loadData.
    rewrite !Part000_getActiveSession_eq. cbn [data file].
    destruct (action ev); try done;
      destruct (list_find (open_for _ _ _) f) as [[i a]|] eqn:Hact;
      try done; try (by destruct (negb _)).
    apply list_find_Some in Hact as (Hi & _).
    unfold Part000.closeSession. cbn [data].
    assert (Hi' : <[i:=Part000.fill_break_fields a]> f !! i =
                  Some (Part000.fill_break_fields a)).
    { apply list_lookup_insert_eq. by eapply lookup_lt_Some. }
    by destruct (Hfound _ i _ Hi') as [[j s] ->].
Qed.





Lemma X8_witness :
  let st := loadData [Session "s1" "g" "u" "d" 0 JS.Null JS.Null
                              (JS.Bool false) JS.Null #0] in
  IndexJs.closeSession st "s9" 10 = (None, st) ∧
  Part000.closeSession st "s9" 10 = (None, st).
Proof.
  intros st. apply (proj2 (proj2 (X8_close_unknown_id st "s9" 10))).
  by intros [=]%list_elem_of_singleton.
Defined.

(** ** The handler and the state machine *)

Lemma well_formed_modern s :
  well_formed s = true → modern s = true ∧ breakStart s ≠ #0.
Proof.
  unfold well_formed, modern.
  destruct (onBreak s) as [| |[|]|]; try done;
    destruct (totalBreak s) as [| | |[|tb]]; try done;
    destruct (breakStart s) as [| | |[|b]]; try done.
  intros Hb. split; [done|]. intros [= ->]. done.
Qed.

Lemma saved_insert f i s :
  loaded f → stringify_parse s = s →
  stringify_parse <$> <[i:=s]> f = <[i:=s]> f.
Proof. intros Hf Hs. by rewrite list_fmap_insert, Hf, Hs. Qed.

Lemma spec_close_saved t s : stringify_parse (spec_close t s) = spec_close t s.
Proof. reflexivity. Qed.

Lemma spec_break_saved t s :
  stringify_parse s = s →
  stringify_parse (spec_break t s) = spec_break t s.
Proof.
  intros Hs. unfold spec_break.
  pose proof (f_equal clockOut Hs) as Hco.
  pose proof (f_equal duration Hs) as Hdu.
  pose proof (f_equal totalBreak Hs) as Htb. simpl in *.
  destruct (break_in_progress s); unfold stringify_parse; simpl;
    by rewrite Hco, Hdu, ?Htb.
Qed.

(** A break press on a well-formed open session, in either copy *)
Lemma press_break f ev i a :
  action ev = break →
  list_find (open_for (guild ev) (user ev) (dept ev)) f = Some (i, a) →
  well_formed a = true →
  ∃ r,
    IndexJs.handleClockButton f ev =
      (r, stringify_parse <$> <[i:=spec_break (now ev) a]> f) ∧
    Part000.handleClockButton f ev =
      (r, stringify_parse <$> <[i:=spec_break (now ev) a]> f).
Proof.
  intros Ha Hact Hwf.
  destruct (well_formed_modern a Hwf) as [Hmod _].
  unfold IndexJs.handleClockButton, Part000.handleClockButton, loadData.
  rewrite IndexJs_getActiveSession_eq, !Part000_getActiveSession_eq, Ha.
  cbn [data file]. rewrite Hact.
  rewrite fill_break_fields_defaults, (modern_with_defaults a Hmod).
  rewrite !list_insert_insert_eq.
  destruct a as [i0 g0 u0 d0 ci co du ob bs tb].
  unfold well_formed in Hwf. cbn [onBreak totalBreak breakStart] in *.
  destruct ob as [| |[|]|]; try done;
    destruct tb as [| | |[|tb]]; try done;
    destruct bs as [| | |[|b]]; try done.
  - (* on break: the break ends *)
    assert (Hb : JS.or #b #(now ev) = #b).
    { unfold JS.or. cbn [JS.ToBoolean]. by rewrite Hwf. }
    cbn [JS.ToBoolean negb onBreak totalBreak breakStart set_onBreak
         set_breakStart set_totalBreak clockOut duration clockIn guildId
         userId departmentId id].
    rewrite or_zero, Hb. eexists. split; reflexivity.
  - (* off break: a break starts *)
    cbn [JS.ToBoolean negb]. eexists. split; reflexivity.
Qed.

(** A clock-out press on a well-formed open session, ids being distinct *)
Lemma press_clockout f ev i a :
  action ev = clockout →
  list_find (open_for (guild ev) (user ev) (dept ev)) f = Some (i, a) →
  well_formed a = true → NoDup (id <$> f) →
  ∃ r,
    IndexJs.handleClockButton f ev =
      (r, stringify_parse <$> <[i:=spec_close (now ev) a]> f) ∧
    Part000.handleClockButton f ev =
      (r, stringify_parse <$> <[i:=spec_close (now ev) a]> f).
Proof.
  intros Ha Hact Hwf Hnd.
  destruct (well_formed_modern a Hwf) as [Hmod Hb0].
  pose proof Hact as (Hi & _)%list_find_Some.
  pose proof (find_by_unique_id f i a Hnd Hi) as Hbyid.
  unfold IndexJs.handleClockButton, Part000.handleClockButton, loadData.
  rewrite IndexJs_getActiveSession_eq, !Part000_getActiveSession_eq, Ha.
  cbn [data file]. rewrite Hact.
  rewrite fill_break_fields_defaults, (modern_with_defaults a Hmod).
  rewrite (list_insert_id f i a Hi).
  destruct (closeSession_as_specified (Store f f) (id a) (now ev) i a
              Hbyid Hmod Hb0) as [-> ->].
  cbn [Result.duration Result.breakTotal data file spec_close totalBreak].
  rewrite or_zero. eexists. split; reflexivity.
Qed.

Lemma handler_is_machine f ev :
  loaded f → Forall (λ s, well_formed s = true) f → NoDup (id <$> f) →
  (IndexJs.handleClockButton f ev).2 = machine f ev ∧
  (Part000.handleClockButton f ev).2 = machine f ev.
Proof.
  intros Hf Hwf Hnd. unfold machine.
  assert (Hrest : ∀ f',
    (action ev = clockin ∧ f' = f ∧
     is_Some (list_find (open_for (guild ev) (user ev) (dept ev)) f)) ∨
    (action ev = clockin ∧ f' = stringify_parse <$> (f ++ [new_session ev]) ∧
     list_find (open_for (guild ev) (user ev) (dept ev)) f = None) ∨
    (action ev ≠ clockin ∧ f' = f ∧
     list_find (open_for (guild ev) (user ev) (dept ev)) f = None) ∨
    (action ev = other ∧ f' = f) →
    (IndexJs.handleClockButton f ev).2 = f' ∧
    (Part000.handleClockButton f ev).2 = f').
  { intros f' Hcase.
    unfold IndexJs.handleClockButton, Part000.handleClockButton, loadData.
    rewrite IndexJs_getActiveSession_eq, !Part000_getActiveSession_eq.
    cbn [data file].
    destruct Hcase as [(-> & -> & [[i a] ->])|[(-> & -> & ->)|
                       [(Hne & -> & ->)|(-> & ->)]]]; try done.
    - by destruct (action ev).
    - by destruct (list_find _ f) as [[i a]|]. }
  destruct (list_find (open_for _ _ _) f) as [[i a]|] eqn:Hact.
  - pose proof Hact as (Hi & _)%list_find_Some.
    assert (Ha : a ∈ f) by (apply list_elem_of_lookup; eauto).
    assert (Hwa : well_formed a = true) by (by eapply Forall_forall in Hwf).
    assert (Hsa : stringify_parse a = a) by (by eapply loaded_elem).
    destruct (action ev) eqn:Hact_ev.
    + apply Hrest. left. eauto.
    + destruct (press_break f ev i a Hact_ev Hact Hwa) as (r & -> & ->).
      cbn [snd]. by rewrite saved_insert by (by try apply spec_break_saved).
    + destruct (press_clockout f ev i a Hact_ev Hact Hwa Hnd)
        as (r & -> & ->).
      cbn [snd]. by rewrite saved_insert.
    + apply Hrest. auto.
  - destruct (action ev) eqn:Hact_ev.
    + destruct (Hrest (stringify_parse <$> (f ++ [new_session ev])))
        as [-> ->]; [auto|].
      by rewrite fmap_app, Hf.
    + apply Hrest. right; right; left.
      split_and!; first [done|exact Hact].
    + apply Hrest. right; right; left.
      split_and!; first [done|exact Hact].
    + apply Hrest. auto.
Qed.

(** X11.  On a loaded file of well-formed sessions with distinct ids, both
    copies of the handler take the step of the specification's state
    machine: a clock-in without open session appends the new session, a
    break press toggles the break of the open session, a clock-out closes
    it, and every other press changes nothing.  In particular the two copies
    write the same file. *)
Theorem X11_handler_follows_machine f ev :
  loaded f → Forall (λ s, well_formed s = true) f → NoDup (id <$> f) →
  (IndexJs.handleClockButton f ev).2 = machine f ev ∧
  (Part000.handleClockButton f ev).2 = machine f ev.
Proof. apply handler_is_machine. Qed.

Lemma X11_witness :
  let f := [Session "s1" "g" "u" "d" 0 JS.Null JS.Null (JS.Bool true)
                    #1000 #0] in
  let ev := Interaction break "g" "u" "d" 4000 "s2" in
  (IndexJs.handleClockButton f ev).2 = machine f ev ∧
  (Part000.handleClockButton f ev).2 = machine f ev.
Proof.
  intros f ev. apply (X11_handler_follows_machine f ev).
  - reflexivity.
  - by repeat constructor.
  - apply NoDup_singleton.
Defined.

(** ** Time accounting *)

Lemma sound_well_formed T s : sound T s → well_formed s = true.
Proof. by intros (? & _). Qed.

Lemma sound_saved T s : sound T s → stringify_parse s = s.
Proof.
  intros (Hwf & _ & Hco). destruct s as [i0 g0 u0 d0 ci co du ob bs tb].
  unfold well_formed in Hwf. cbn [onBreak totalBreak breakStart clockOut
    duration] in *.
  assert (Hdu : du = JS.Null ∨ ∃ dur, du = #dur).
  { destruct co as [| | |[|co]]; try done.
    - left. apply Hco.
    - right. destruct Hco as (_ & dur & Hdu & _). eauto. }
  assert (Hc : JS.JSON_roundtrip co = co)
    by (by destruct co as [| | |[|co]]).
  unfold stringify_parse. cbn [id guildId userId departmentId clockIn
    clockOut duration onBreak breakStart totalBreak]. rewrite Hc.
  destruct ob as [| |b|]; try done; destruct tb as [| | |[|tb]];
    try (by destruct b); destruct bs as [| | |[|bs]]; try (by destruct b);
    by destruct Hdu as [->|[dur ->]].
Qed.

Lemma sound_loaded T f : Forall (sound T) f → loaded f.
Proof.
  intros Hf. unfold loaded. induction Hf as [|s f Hs _ IH]; [done|].
  rewrite fmap_cons. rewrite IH. f_equal. by eapply sound_saved.
Qed.

Lemma sound_later T T' s : (T ≤ T')%Z → sound T s → sound T' s.
Proof.
  intros HT (Hwf & Htb & Hco). split_and!; [done..|].
  destruct (clockOut s) as [| | |[|c]]; try done.
  destruct Hco as (Hdu & Hci & Hbr).
  split; [done|]. split; [lia|].
  destruct (break_in_progress s) as [b|]; [|lia].
  destruct Hbr as [[? ?] ?]. split; [split|]; lia.
Qed.

Lemma sound_new ev : sound (now ev) (new_session ev).
Proof.
  unfold sound, well_formed, break_in_progress, totalBreak_ms, new_session.
  cbn [onBreak totalBreak breakStart clockOut duration clockIn].
  split_and!; first [done|lia].
Qed.

Lemma sound_break T now s :
  sound T s → clockOut s = JS.Null → (T ≤ now)%Z → now ≠ 0%Z →
  sound now (spec_break now s).
Proof.
  intros (Hwf & Htb & Hco) Hopen HT H0. rewrite Hopen in Hco.
  destruct Hco as (Hdu & Hci & Hbr).
  destruct s as [i0 g0 u0 d0 ci co du ob bs tb].
  unfold well_formed, break_in_progress, totalBreak_ms, spec_break,
    break_in_progress, totalBreak_ms, sound in *.
  cbn [onBreak totalBreak breakStart clockOut duration clockIn] in *.
  subst co.
  destruct ob as [| |[|]|]; try done;
    destruct tb as [| | |[|tb]]; try done;
    destruct bs as [| | |[|bs]]; try done;
    cbn [onBreak totalBreak breakStart clockOut duration clockIn
         well_formed break_in_progress totalBreak_ms].
  - destruct Hbr as [[? ?] ?]. split_and!; first [done|lia].
  - split_and!; first [done|lia].
Qed.

Lemma sound_close T now s :
  sound T s → clockOut s = JS.Null → (T ≤ now)%Z →
  sound now (spec_close now s).
Proof.
  intros (Hwf & Htb & Hco) Hopen HT. rewrite Hopen in Hco.
  destruct Hco as (Hdu & Hci & Hbr).
  destruct s as [i0 g0 u0 d0 ci co du ob bs tb].
  unfold well_formed, break_in_progress, totalBreak_ms, spec_close,
    break_in_progress, totalBreak_ms, sound in *.
  cbn [onBreak totalBreak breakStart clockOut duration clockIn] in *.
  subst co.
  destruct ob as [| |[|]|]; try done;
    destruct tb as [| | |[|tb]]; try done;
    destruct bs as [| | |[|bs]]; try done;
    cbn [onBreak totalBreak breakStart clockOut duration clockIn
         well_formed break_in_progress totalBreak_ms].
  - destruct Hbr as [[? ?] ?]. split_and!; try done; try lia.
    eexists. split_and!; [done|lia..].
  - split_and!; try done; try lia.
    eexists. split_and!; [done|lia..].
Qed.

Lemma sound_open T f s guild user dept i :
  Forall (sound T) f →
  list_find (open_for guild user dept) f = Some (i, s) →
  f !! i = Some s ∧ sound T s ∧ clockOut s = JS.Null.
Proof.
  intros Hf (Hi & (_&_&_&Hopen) & _)%list_find_Some.
  assert (Hs : sound T s) by (by eapply Forall_lookup_1 in Hf).
  split_and!; [done..|].
  destruct Hs as (_ & _ & Hco).
  by destruct (clockOut s) as [| | |[|c]].
Qed.

(** One step of the machine keeps the accounting and the ids in order. *)
Lemma machine_sound T f ev :
  Forall (sound T) f → NoDup (id <$> f) →
  (T ≤ now ev)%Z → now ev ≠ 0%Z → fresh ev ∉ id <$> f →
  Forall (sound (now ev)) (machine f ev) ∧
  NoDup (id <$> machine f ev) ∧
  (∀ x, x ∈ id <$> machine f ev → x ∈ fresh ev :: (id <$> f)).
Proof.
  intros Hf Hnd HT H0 Hfresh.
  assert (Hf' : Forall (sound (now ev)) f).
  { eapply Forall_impl; [exact Hf|]. intros s. by apply sound_later. }
  assert (Hins : ∀ i a a', f !! i = Some a → id a' = id a →
                           id <$> <[i:=a']> f = id <$> f).
  { intros i a a' Hi Hid. rewrite list_fmap_insert. apply list_insert_id.
    by rewrite list_lookup_fmap, Hi; simpl; rewrite Hid. }
  unfold machine.
  destruct (list_find (open_for _ _ _) f) as [[i a]|] eqn:Hact.
  - destruct (sound_open T f a _ _ _ i Hf Hact) as (Hi & Ha & Hopen).
    destruct (action ev).
    + split_and!; [done..|]. intros x Hx. by right.
    + rewrite (Hins i a) by (done || by unfold spec_break; case_match).
      split_and!; [|done|intros x Hx; by right].
      apply Forall_insert; [done|]. by eapply sound_break.
    + rewrite (Hins i a) by done.
      split_and!; [|done|intros x Hx; by right].
      apply Forall_insert; [done|]. by eapply sound_close.
    + split_and!; [done..|]. intros x Hx. by right.
  - destruct (action ev); try (split_and!; [done..|intros x Hx; by right]).
    rewrite fmap_app. split_and!.
    + apply Forall_app. split; [done|].
      apply Forall_singleton, sound_new.
    + apply NoDup_app. split_and!; [done| |apply NoDup_singleton].
      intros x Hx Hx'%list_elem_of_singleton. by subst.
    + intros x [?|Hx%list_elem_of_singleton]%elem_of_app; [by right|].
      subst. by left.
Qed.

Lemma trace_sound (h : list session → interaction → reply * list session) :
  (∀ f ev, loaded f → Forall (λ s, well_formed s = true) f →
           NoDup (id <$> f) → (h f ev).2 = machine f ev) →
  ∀ evs T f used,
    Forall (sound T) f → NoDup (id <$> f) →
    (∀ x, x ∈ id <$> f → x ∈ used) → in_order T used evs →
    Forall (λ f', ∃ T', Forall (sound T') f') (states h f evs).
Proof.
  intros Hh. induction evs as [|ev evs IH]; intros T f used Hf Hnd Hused Hord;
    simpl.
  - repeat constructor. eauto.
  - destruct Hord as (HT & H0 & Hfresh & Hord).
    constructor; [eauto|].
    rewrite Hh; [|by eapply sound_loaded| |done]; cycle 1.
    { eapply Forall_impl; [exact Hf|]. apply sound_well_formed. }
    destruct (machine_sound T f ev Hf Hnd HT H0) as (Hs & Hn & Hids).
    { intros Hx. by apply Hfresh, Hused. }
    eapply IH; [exact Hs|exact Hn| |exact Hord].
    intros x [->|Hx]%Hids%elem_of_cons; [by left|right; auto].
Qed.

(** X12.  Time is accounted for.  Start from a file whose sessions are
    [sound] (the empty file is) with distinct ids, and let presses arrive in
    time order, none at timestamp 0, each with an unused id.  Then in every
    file the run goes through, with either copy, every session is sound:
    break time is never negative, a session on break knows when its break
    started, and a closed session has [duration >= 0] and
    [duration + totalBreak = clockOut - clockIn], so nothing was floored away
    and [totalBreak <= clockOut - clockIn]. *)
Theorem X12_time_is_accounted_for T f evs :
  Forall (sound T) f → NoDup (id <$> f) → in_order T (id <$> f) evs →
  Forall (λ f', ∃ T', Forall (sound T') f')
         (states IndexJs.handleClockButton f evs) ∧
  Forall (λ f', ∃ T', Forall (sound T') f')
         (states Part000.handleClockButton f evs).
Proof.
  intros Hf Hnd Hord. split.
  - eapply (trace_sound IndexJs.handleClockButton); eauto.
    intros f0 ev ? ? ?. by apply handler_is_machine.
  - eapply (trace_sound Part000.handleClockButton); eauto.
    intros f0 ev ? ? ?. by apply handler_is_machine.
Qed.

Lemma X12_witness :
  let evs := [Interaction clockin "g" "u" "d" 100 "s1";
              Interaction break "g" "u" "d" 1000 "s2";
              Interaction break "g" "u" "d" 4000 "s3";
              Interaction clockout "g" "u" "d" 10000 "s4"] in
  Forall (λ f', ∃ T', Forall (sound T') f')
         (states IndexJs.handleClockButton [] evs) ∧
  Forall (λ f', ∃ T', Forall (sound T') f')
         (states Part000.handleClockButton [] evs).
Proof.
  intros evs. apply (X12_time_is_accounted_for 0 [] evs).
  - constructor.
  - constructor.
  - simpl. repeat split; try lia; try done;
      rewrite ?elem_of_cons, ?elem_of_nil; intros H;
      repeat (destruct H as [H|H]; try discriminate H); done.
Defined.

(** ** Display of durations *)

Lemma hms_decomposition (ms : Z) :
  (0 ≤ ms)%Z →
  let s := (ms / 1000)%Z in
  let h := (s / 3600)%Z in
  let m := (Z.rem s 3600 / 60)%Z in
  let sec := Z.rem s 60 in
  (0 ≤ h ∧ 0 ≤ m < 60 ∧ 0 ≤ sec < 60)%Z ∧
  (h * 3600 + m * 60 + sec = s)%Z ∧
  (s * 1000 ≤ ms < (s + 1) * 1000)%Z.
Proof.
  intros Hms s h m sec. subst h m sec.
  assert (Hs : (0 ≤ s)%Z) by (subst s; apply Z.div_pos; lia).
  rewrite !Z.rem_mod_nonneg by lia.
  subst s. split_and!; Z.div_mod_to_equations; lia.
Qed.

(** X13.  What the bot prints for a duration of [ms >= 0] milliseconds is a
    true split of its whole seconds: hours, then minutes and seconds below
    60, adding up to [floor(ms / 1000)].  [index.js] prints all three
    fields; [part_000] leaves the zero fields out and prints [0s] for a
    duration below one second. *)
Theorem X13_duration_display v ms :
  JS.ToNumber v = JS.Fin ms → (0 ≤ ms)%Z →
  ∃ h m sec : Z,
    (0 ≤ h ∧ 0 ≤ m < 60 ∧ 0 ≤ sec < 60)%Z ∧
    ((h * 3600 + m * 60 + sec) * 1000 ≤ ms
     < (h * 3600 + m * 60 + sec + 1) * 1000)%Z ∧
    IndexJs.formatDuration v =
      pretty h +:+ "h " +:+ pretty m +:+ "m " +:+ pretty sec +:+ "s" ∧
    Part000.formatDuration v =
      if decide (h = 0 ∧ m = 0 ∧ sec = 0)%Z then "0s"
      else String.concat " "
             (unit_part h "h" ++ unit_part m "m" ++ unit_part sec "s").
Proof.
  intros Hv Hms.
  destruct (hms_decomposition ms Hms) as (Hb & Hsum & Hr).
  set (s := (ms / 1000)%Z) in *.
  exists (s / 3600)%Z, (Z.rem s 3600 / 60)%Z, (Z.rem s 60).
  rewrite Hsum. split_and!; try tauto; try lia.
  - unfold IndexJs.formatDuration. rewrite Hv. reflexivity.
  - unfold Part000.formatDuration. rewrite Hv.
    cbn [JS.floor_div JS.rem JS.ToBoolean JS.ToString]. fold s.
    generalize (s / 3600)%Z (Z.rem s 3600 / 60)%Z (Z.rem s 60).
    intros h m sec. unfold unit_part.
    destruct (Z.eqb_spec h 0) as [->|Hh];
      destruct (Z.eqb_spec m 0) as [->|Hm];
      destruct (Z.eqb_spec sec 0) as [->|Hsec]; simpl;
      repeat case_decide; simpl; first [done|lia|tauto].
Qed.

Lemma X13_witness :
  ∃ h m sec : Z,
    (0 ≤ h ∧ 0 ≤ m < 60 ∧ 0 ≤ sec < 60)%Z ∧
    ((h * 3600 + m * 60 + sec) * 1000 ≤ 3725999
     < (h * 3600 + m * 60 + sec + 1) * 1000)%Z ∧
    IndexJs.formatDuration #3725999 =
      pretty h +:+ "h " +:+ pretty m +:+ "m " +:+ pretty sec +:+ "s" ∧
    Part000.formatDuration #3725999 =
      if decide (h = 0 ∧ m = 0 ∧ sec = 0)%Z then "0s"
      else String.concat " "
             (unit_part h "h" ++ unit_part m "m" ++ unit_part sec "s").
Proof. apply (X13_duration_display #3725999 3725999); [reflexivity|lia]. Defined.

(** X14.  Below zero the two roundings of [formatDuration] disagree:
    [Math.floor] rounds down, [%] keeps the sign.  A duration of less than a
    second below zero (a break ended by a press stamped before the one that
    started it) is printed as minus one hour, minus one minute and minus one
    second, by both copies. *)
Theorem X14_negative_duration_display v ms :
  JS.ToNumber v = JS.Fin ms → (-1000 ≤ ms < 0)%Z →
  IndexJs.formatDuration v = "-1h -1m -1s" ∧
  Part000.formatDuration v = "-1h -1m -1s".
Proof.
  intros Hv Hms.
  assert (Hs : (ms / 1000 = -1)%Z).
  { symmetry. apply (Z.div_unique ms 1000 (-1) (ms + 1000)); lia. }
  unfold IndexJs.formatDuration, Part000.formatDuration. rewrite Hv.
  cbn [JS.floor_div JS.rem]. rewrite Hs. split; reflexivity.
Qed.

Lemma X14_witness :
  IndexJs.formatDuration #(-500) = "-1h -1m -1s" ∧
  Part000.formatDuration #(-500) = "-1h -1m -1s".
Proof.
  apply (X14_negative_duration_display #(-500) (-500)); [reflexivity|lia].
Defined.

(** X15.  A duration that is not a number (the [NaN] that [index.js]
    computes from a record without break fields) is printed as such:
    [index.js] shows [NaN] in all three fields, [part_000] a single
    [NaNs]. *)
Theorem X15_nan_duration_display v :
  JS.ToNumber v = JS.NaN →
  IndexJs.formatDuration v = "NaNh NaNm NaNs" ∧
  Part000.formatDuration v = "NaNs".
Proof.
  intros Hv. unfold IndexJs.formatDuration, Part000.formatDuration.
  rewrite Hv. split; reflexivity.
Qed.

Lemma X15_witness :
  IndexJs.formatDuration JS.Undefined = "NaNh NaNm NaNs" ∧
  Part000.formatDuration JS.Undefined = "NaNs".
Proof. apply (X15_nan_duration_display JS.Undefined). reflexivity. Defined.

(** ** Calendar windows on a UTC host *)

Section UtcCalendar.
Local Open Scope Z_scope.

Lemma year_of_era doe :
  0 ≤ doe ≤ 146096 →
  let yoe := (doe - doe / 1460 + doe / 36524 - doe / 146096) / 365 in
  0 ≤ yoe ≤ 399 ∧ 0 ≤ doe - (365 * yoe + yoe / 4 - yoe / 100) ≤ 365.
Proof. intros H yoe. subst yoe. Z.div_mod_to_equations. lia. Qed.

Lemma year_of_era_next doe :
  0 ≤ doe ≤ 146096 →
  let yoe := (doe - doe / 1460 + doe / 36524 - doe / 146096) / 365 in
  (yoe < 399 →
   doe < 365 * (yoe + 1) + (yoe + 1) / 4 - (yoe + 1) / 100) ∧
  (yoe = 399 → 145731 ≤ doe).
Proof. intros H yoe. subst yoe. Z.div_mod_to_equations. lia. Qed.

Lemma year_of_era_inv yoe doy :
  0 ≤ yoe ≤ 399 → 0 ≤ doy ≤ 364 →
  let doe := yoe * 365 + yoe / 4 - yoe / 100 + doy in
  0 ≤ doe ≤ 146096 ∧
  (doe - doe / 1460 + doe / 36524 - doe / 146096) / 365 = yoe.
Proof. intros H1 H2 doe. subst doe. Z.div_mod_to_equations. lia. Qed.

(** Every day number is the day number of the date it converts to. *)
Lemma civil_round_trip z :
  ∃ y m d, UTC.civil_from_days z = (y, m, d) ∧
           UTC.days_from_civil y m d = z ∧ 1 ≤ m ≤ 12 ∧ 1 ≤ d ≤ 31 ∧
           (z + 719468) / 146097 * 400 ≤ y.
Proof.
  unfold UTC.civil_from_days. cbv zeta.
  set (z' := z + 719468).
  set (era := z' / 146097).
  set (doe := z' - era * 146097).
  assert (Hdoe : 0 ≤ doe ≤ 146096).
  { subst doe era. Z.div_mod_to_equations. lia. }
  destruct (year_of_era doe Hdoe) as [Hyoe Hdoy].
  set (yoe := (doe - doe / 1460 + doe / 36524 - doe / 146096) / 365) in *.
  set (doy := doe - (365 * yoe + yoe / 4 - yoe / 100)) in *.
  set (mp := (5 * doy + 2) / 153).
  assert (Hmp : 0 ≤ mp ≤ 11) by (subst mp; Z.div_mod_to_equations; lia).
  eexists _, _, _. split; [reflexivity|].
  assert (Hera : ∀ k, 0 ≤ k ≤ 399 → (k + era * 400) / 400 = era).
  { intros k Hk. rewrite Z.div_add by lia. rewrite Z.div_small; lia. }
  unfold UTC.days_from_civil. cbv zeta.
  destruct (Z.ltb_spec mp 10) as [Hlt|Hge].
  - destruct (Z.leb_spec (mp + 3) 2); [lia|].
    destruct (Z.ltb_spec 2 (mp + 3)); [|lia].
    rewrite Hera by lia.
    replace (yoe + era * 400 - era * 400) with yoe by lia.
    replace (mp + 3 - 3) with mp by lia.
    split_and!; try lia; subst mp; Z.div_mod_to_equations; lia.
  - destruct (Z.leb_spec (mp - 9) 2); [|lia].
    destruct (Z.ltb_spec 2 (mp - 9)); [lia|].
    replace (yoe + era * 400 + 1 - 1) with (yoe + era * 400) by lia.
    rewrite Hera by lia.
    replace (yoe + era * 400 - era * 400) with yoe by lia.
    replace (mp - 9 + 9) with mp by lia.
    split_and!; try lia; subst mp; Z.div_mod_to_equations; lia.
Qed.

(** The first of a month converts back to itself. *)
Lemma civil_of_first y m :
  1 ≤ m ≤ 12 →
  UTC.civil_from_days (UTC.days_from_civil y m 1) = (y, m, 1).
Proof.
  intros Hm. unfold UTC.days_from_civil. cbv zeta.
  set (y' := if m <=? 2 then y - 1 else y).
  set (era := y' / 400).
  set (yoe := y' - era * 400).
  set (mp := if 2 <? m then m - 3 else m + 9).
  assert (Hyoe : 0 ≤ yoe ≤ 399).
  { subst yoe era. Z.div_mod_to_equations. lia. }
  assert (Hmp : 0 ≤ mp ≤ 11).
  { subst mp. destruct (Z.ltb_spec 2 m); lia. }
  set (doy := (153 * mp + 2) / 5).
  assert (Hdoy : 0 ≤ doy ≤ 364 ∧ (5 * doy + 2) / 153 = mp).
  { subst doy. Z.div_mod_to_equations. lia. }
  destruct Hdoy as [Hdoy Hmp'].
  replace (doy + 1 - 1) with doy by lia.
  destruct (year_of_era_inv yoe doy Hyoe Hdoy) as [Hdoe Hinv].
  set (doe := yoe * 365 + yoe / 4 - yoe / 100 + doy) in *.
  unfold UTC.civil_from_days. cbv zeta.
  replace (era * 146097 + doe - 719468 + 719468)
    with (doe + era * 146097) by lia.
  rewrite Z.div_add by lia. rewrite (Z.div_small doe) by lia.
  rewrite Z.add_0_l.
  replace (doe + era * 146097 - era * 146097) with doe by lia.
  rewrite Hinv.
  replace (doe - (365 * yoe + yoe / 4 - yoe / 100)) with doy
    by (subst doe; lia).
  rewrite Hmp'. fold doy.
  replace (doy - doy + 1) with 1 by lia.
  replace (yoe + era * 400) with y' by (subst yoe; lia).
  subst mp y'.
  destruct (Z.ltb_spec 2 m).
  - destruct (Z.leb_spec m 2); [lia|].
    destruct (Z.ltb_spec (m - 3) 10); [|lia].
    replace (m - 3 + 3) with m by lia.
    destruct (Z.leb_spec m 2); [lia|]. done.
  - destruct (Z.leb_spec m 2); [|lia].
    destruct (Z.ltb_spec (m + 9) 10); [lia|].
    replace (m + 9 - 9) with m by lia.
    destruct (Z.leb_spec m 2); [|lia]. f_equal. f_equal. lia.
Qed.

(** The first of the month after the one [z] falls in comes after [z], 28
    to 31 days after the first of [z]'s month. *)
Lemma civil_month z :
  ∃ y m d, UTC.civil_from_days z = (y, m, d) ∧
           z < UTC.MakeDay y m 1 ∧
           28 ≤ UTC.MakeDay y m 1 - (z - d + 1) ≤ 31.
Proof.
  unfold UTC.civil_from_days, UTC.MakeDay. cbv zeta.
  set (z' := z + 719468).
  set (era := z' / 146097).
  set (doe := z' - era * 146097).
  assert (Hdoe : 0 ≤ doe ≤ 146096).
  { subst doe era. Z.div_mod_to_equations. lia. }
  destruct (year_of_era doe Hdoe) as [Hyoe Hdoy].
  destruct (year_of_era_next doe Hdoe) as [Hnext Hlast].
  set (yoe := (doe - doe / 1460 + doe / 36524 - doe / 146096) / 365) in *.
  set (doy := doe - (365 * yoe + yoe / 4 - yoe / 100)) in *.
  set (mp := (5 * doy + 2) / 153).
  assert (Hmp : 0 ≤ mp ≤ 11) by (subst mp; Z.div_mod_to_equations; lia).
  assert (Hz : z = era * 146097 + doe - 719468) by (subst doe z'; lia).
  assert (Hdoe' : doe = 365 * yoe + yoe / 4 - yoe / 100 + doy)
    by (subst doy; lia).
  eexists _, _, _. split; [reflexivity|].
  assert (Hera : ∀ k, 0 ≤ k ≤ 399 → (k + era * 400) / 400 = era).
  { intros k Hk. rewrite Z.div_add by lia. rewrite Z.div_small; lia. }
  assert (Hmp' : 153 * mp ≤ 5 * doy + 2 < 153 * mp + 153)
    by (subst mp; Z.div_mod_to_equations; lia).
  clearbody mp doy yoe doe era. clear z'.
  unfold UTC.days_from_civil. cbv zeta.
  assert (Hcase : mp ≤ 8 ∨ mp = 9 ∨ mp = 10 ∨ mp = 11) by lia.
  destruct Hcase as [Hc | [-> | [-> | ->] ] ].
  - destruct (Z.ltb_spec mp 10); [|lia].
    destruct (Z.leb_spec (mp + 3) 2); [lia|].
    replace ((mp + 3) / 12) with 0 by (Z.div_mod_to_equations; lia).
    replace ((mp + 3) mod 12 + 1) with (mp + 4)
      by (Z.div_mod_to_equations; lia).
    destruct (Z.leb_spec (mp + 4) 2); [lia|].
    destruct (Z.ltb_spec 2 (mp + 4)); [|lia].
    rewrite Z.add_0_r, Hera by lia.
    replace (yoe + era * 400 - era * 400) with yoe by lia.
    replace (mp + 4 - 3) with (mp + 1) by lia.
    Z.div_mod_to_equations. lia.
  - simpl. Z.div_mod_to_equations. lia.
  - simpl. Z.div_mod_to_equations. lia.
  - simpl. destruct (decide (yoe = 399)) as [->|Hne];
      Z.div_mod_to_equations; lia.
Qed.

Lemma MakeDay_linear y m d k : UTC.MakeDay y m (d + k) = UTC.MakeDay y m d + k.
Proof. unfold UTC.MakeDay. lia. Qed.

Lemma days_from_civil_linear y m d :
  UTC.days_from_civil y m d = UTC.days_from_civil y m 1 + d - 1.
Proof. unfold UTC.days_from_civil. cbv zeta. lia. Qed.

Lemma Day_of_midnight z : UTC.Day (z * UTC.msPerDay) = z.
Proof. unfold UTC.Day, UTC.msPerDay. by rewrite Z.div_mul. Qed.

Lemma Day_bounds t :
  UTC.Day t * UTC.msPerDay ≤ t < (UTC.Day t + 1) * UTC.msPerDay.
Proof. unfold UTC.Day, UTC.msPerDay. Z.div_mod_to_equations. lia. Qed.

(** From 1600 on, the fields of an instant name its own day:
    [new Date(y, m, d + k)] on them is midnight [k] days later. *)
Lemma utc_date_fields t k :
  -100000 ≤ UTC.Day t →
  UTC.new_Date (UTC.YearFromTime t) (UTC.MonthFromTime t)
               (UTC.DateFromTime t + k) =
    (UTC.Day t + k) * UTC.msPerDay.
Proof.
  intros Ht.
  destruct (civil_round_trip (UTC.Day t)) as (y & m & d & Hc & Hr & Hm & Hd & Hy).
  unfold UTC.YearFromTime, UTC.MonthFromTime, UTC.DateFromTime, UTC.new_Date.
  rewrite Hc. cbn [fst snd]. f_equal.
  assert (Hy' : 1600 ≤ y).
  { etrans; [|exact Hy]. Z.div_mod_to_equations. lia. }
  unfold UTC.MakeFullYear.
  destruct (Z.leb_spec 0 y); [|lia]. destruct (Z.leb_spec y 99); [lia|].
  cbn [andb]. rewrite MakeDay_linear. unfold UTC.MakeDay.
  rewrite Z.div_small, Z.mod_small by lia.
  rewrite Z.add_0_r. replace (m - 1 + 1) with m by lia.
  rewrite <- days_from_civil_linear. lia.
Qed.

(** The week window on a UTC host, in day numbers. *)
Lemma utc_week now :
  -50000 ≤ UTC.Day now →
  @getCurrentWeekRange utc now =
    Range ((UTC.Day now - UTC.WeekDay now) * UTC.msPerDay)
          ((UTC.Day now - UTC.WeekDay now + 7) * UTC.msPerDay).
Proof.
  intros Hnow. unfold getCurrentWeekRange.
  cbn [getFullYear getMonth getDate getDay new_Date utc].
  assert (Hwd : 0 ≤ UTC.WeekDay now < 7)
    by (unfold UTC.WeekDay; apply Z.mod_pos_bound; lia).
  replace (UTC.DateFromTime now - UTC.WeekDay now)
    with (UTC.DateFromTime now + - UTC.WeekDay now) by lia.
  rewrite (utc_date_fields now) by lia.
  replace (UTC.Day now + - UTC.WeekDay now)
    with (UTC.Day now - UTC.WeekDay now) by lia.
  f_equal. rewrite utc_date_fields; rewrite Day_of_midnight; [done|lia].
Qed.

End UtcCalendar.

Section UtcWindows.
Local Open Scope Z_scope.

(** The week window of a UTC host: seven days around [now], from a Sunday
    midnight, and the same for every instant inside it. *)
Lemma utc_week_window now now' :
  0 ≤ now →
  let r := @getCurrentWeekRange utc now in
  startMs r ≤ now < endMs r ∧ endMs r = startMs r + 604800000 ∧
  UTC.WeekDay (startMs r) = 0 ∧ startMs r mod 86400000 = 0 ∧
  (startMs r ≤ now' < endMs r → @getCurrentWeekRange utc now' = r).
Proof.
  intros Hnow.
  assert (HD : 0 ≤ UTC.Day now) by (unfold UTC.Day; by apply Z.div_pos).
  rewrite utc_week by lia. cbn [startMs endMs].
  pose proof (Day_bounds now) as Hb.
  assert (Hwd : 0 ≤ UTC.WeekDay now < 7)
    by (unfold UTC.WeekDay; apply Z.mod_pos_bound; lia).
  assert (Hsun : (UTC.Day now - UTC.WeekDay now + 4) mod 7 = 0).
  { unfold UTC.WeekDay. Z.div_mod_to_equations. lia. }
  split_and!.
  - unfold UTC.msPerDay in *. lia.
  - unfold UTC.msPerDay in *. lia.
  - unfold UTC.msPerDay. lia.
  - unfold UTC.WeekDay at 1. by rewrite Day_of_midnight.
  - apply Z.mod_mul. done.
  - intros Hnow'.
    pose proof (Day_bounds now') as Hb'.
    assert (HD' : UTC.Day now - UTC.WeekDay now ≤ UTC.Day now'
                  < UTC.Day now - UTC.WeekDay now + 7)
      by (unfold UTC.msPerDay in *; lia).
    rewrite utc_week by lia.
    assert (UTC.Day now' - UTC.WeekDay now' =
            UTC.Day now - UTC.WeekDay now) as ->; [|done].
    unfold UTC.WeekDay at 1.
    generalize dependent (UTC.Day now'). generalize dependent (UTC.Day now).
    generalize (UTC.WeekDay now). intros w D _ _ Hw Hs D' _ HD'.
    Z.div_mod_to_equations. lia.
Qed.

(** X16.  On a host whose local time is UTC, at any instant [now] from 1970
    on (and a week inside the range of [Date]), [getCurrentWeekRange]
    returns a window of exactly seven days that contains [now] and starts at
    midnight on a Sunday; and it returns the same window at every other
    instant [now'] inside that window, so the week windows cut time into
    disjoint weeks. *)
Theorem X16_utc_week_window now now' :
  0 ≤ now → now + 604800000 ≤ 8640000000000000 →
  let r := @getCurrentWeekRange utc now in
  startMs r ≤ now < endMs r ∧ endMs r = startMs r + 604800000 ∧
  UTC.WeekDay (startMs r) = 0 ∧ startMs r mod 86400000 = 0 ∧
  (startMs r ≤ now' < endMs r → @getCurrentWeekRange utc now' = r).
Proof. intros Hnow _. by apply utc_week_window. Qed.

Lemma X16_witness :
  let r := @getCurrentWeekRange utc 1762167600000 in
  startMs r ≤ 1762167600000 < endMs r ∧ endMs r = startMs r + 604800000 ∧
  UTC.WeekDay (startMs r) = 0 ∧ startMs r mod 86400000 = 0 ∧
  (startMs r ≤ 1762560000000 < endMs r →
   @getCurrentWeekRange utc 1762560000000 = r).
Proof.
  apply (X16_utc_week_window 1762167600000 1762560000000); lia.
Defined.

(** X17.  On a host whose local time is UTC, at any instant [now] from 1970
    on (and a month inside the range of [Date]), [getCurrentMonthRange] returns a window that contains [now], runs
    from midnight on the first of [now]'s month to midnight on the first of
    a month, and is 28 to 31 days long. *)
Theorem X17_utc_month_window now :
  0 ≤ now → now + 31 * 86400000 ≤ 8640000000000000 →
  let r := @getCurrentMonthRange utc now in
  startMs r ≤ now < endMs r ∧
  (UTC.YearFromTime (startMs r) = UTC.YearFromTime now ∧
   UTC.MonthFromTime (startMs r) = UTC.MonthFromTime now ∧
   UTC.DateFromTime (startMs r) = 1) ∧
  UTC.DateFromTime (endMs r) = 1 ∧
  startMs r mod 86400000 = 0 ∧ endMs r mod 86400000 = 0 ∧
  28 * 86400000 ≤ endMs r - startMs r ≤ 31 * 86400000.
Proof.
  intros Hnow _.
  assert (HD : 0 ≤ UTC.Day now) by (unfold UTC.Day; by apply Z.div_pos).
  pose proof (Day_bounds now) as Hb.
  unfold getCurrentMonthRange.
  cbn [getFullYear getMonth getDate getDay new_Date utc startMs endMs].
  destruct (civil_round_trip (UTC.Day now))
    as (y & m & d & Hc & Hr & Hm & Hd & Hy).
  destruct (civil_month (UTC.Day now)) as (y' & m' & d' & Hc' & Hlt & Hlen).
  rewrite Hc in Hc'. symmetry in Hc'. simplify_eq.
  assert (Hy' : 1600 ≤ y).
  { etrans; [|exact Hy]. Z.div_mod_to_equations. lia. }
  assert (HY : UTC.YearFromTime now = y)
    by (unfold UTC.YearFromTime; by rewrite Hc).
  assert (HM : UTC.MonthFromTime now = m - 1)
    by (unfold UTC.MonthFromTime; by rewrite Hc).
  assert (HF : UTC.MakeFullYear y = y).
  { unfold UTC.MakeFullYear.
    destruct (Z.leb_spec 0 y); [|lia]. by destruct (Z.leb_spec y 99); [lia|]. }
  rewrite !HY, !HM. unfold UTC.new_Date. rewrite HF.
  replace (m - 1 + 1) with m by lia.
  assert (Hstart : UTC.MakeDay y (m - 1) 1 = UTC.days_from_civil y m 1).
  { unfold UTC.MakeDay. rewrite Z.div_small, Z.mod_small by lia.
    rewrite Z.add_0_r. replace (m - 1 + 1) with m by lia. lia. }
  assert (Hstart' : UTC.MakeDay y (m - 1) 1 = UTC.Day now - d + 1).
  { rewrite Hstart. rewrite (days_from_civil_linear y m d) in Hr. lia. }
  unfold UTC.YearFromTime, UTC.MonthFromTime, UTC.DateFromTime.
  rewrite !Day_of_midnight.
  split_and!.
  - rewrite Hstart'. unfold UTC.msPerDay in *. lia.
  - unfold UTC.msPerDay in *. lia.
  - by rewrite Hstart, civil_of_first.
  - by rewrite Hstart, civil_of_first.
  - by rewrite Hstart, civil_of_first.
  - unfold UTC.MakeDay. rewrite Z.add_simpl_r.
    rewrite civil_of_first; [done|].
    pose proof (Z.mod_pos_bound m 12). lia.
  - apply Z.mod_mul. done.
  - apply Z.mod_mul. done.
  - rewrite Hstart'. unfold UTC.msPerDay. lia.
  - rewrite Hstart'. unfold UTC.msPerDay. lia.
Qed.

Lemma X17_witness :
  let r := @getCurrentMonthRange utc 1762167600000 in
  startMs r ≤ 1762167600000 < endMs r ∧
  (UTC.YearFromTime (startMs r) = UTC.YearFromTime 1762167600000 ∧
   UTC.MonthFromTime (startMs r) = UTC.MonthFromTime 1762167600000 ∧
   UTC.DateFromTime (startMs r) = 1) ∧
  UTC.DateFromTime (endMs r) = 1 ∧
  startMs r mod 86400000 = 0 ∧ endMs r mod 86400000 = 0 ∧
  28 * 86400000 ≤ endMs r - startMs r ≤ 31 * 86400000.
Proof. apply (X17_utc_month_window 1762167600000); lia. Defined.

End UtcWindows.

Section WeeklyBreakdown.
Local Open Scope Z_scope.

Lemma sum_shift (l : list Z) (a : Z) : foldr Z.add a l = foldr Z.add 0 l + a.
Proof. induction l as [|x l IH]; simpl; lia. Qed.

(** Totals over [n + 1] consecutive windows of width [W] ending at [s + W]
    add up to the total over their union. *)
Lemma counted_weeks who guild x (d : list session) s W n :
  0 ≤ W →
  foldr Z.add 0
    ((λ i : nat,
        total_ms (filter (counted who guild x (s - Z.of_nat i * W)
                                  (s + W - Z.of_nat i * W)) d))
     <$> seq 0 (S n)) =
  total_ms (filter (counted who guild x (s - Z.of_nat n * W) (s + W)) d).
Proof.
  intros HW. induction n as [|n IH].
  - cbn [seq fmap list_fmap foldr]. rewrite Z.add_0_r.
    change (Z.of_nat 0) with 0. by rewrite Z.mul_0_l, !Z.sub_0_r.
  - rewrite seq_S, fmap_app, foldr_app. cbn [fmap list_fmap foldr].
    rewrite sum_shift, IH. cbn [plus]. rewrite Z.add_0_r, Z.add_comm.
    replace (s + W - Z.of_nat (S n) * W) with (s - Z.of_nat n * W) by lia.
    apply counted_split. lia.
Qed.

(** The weekly figures of [handleMyHours] on any host, when the eight
    readings of the clock give the same week window [r] and [r] is 168
    hours long. *)
Lemma weekly_breakdown `{LocalTime} d guild user (clock : nat → Z) r :
  Forall consistent d →
  (∀ i, (i < 8)%nat → getCurrentWeekRange (clock i) = r) →
  endMs r = startMs r + 604800000 →
  ∃ ws : list Z,
    handleMyHours_weeks IndexJs.getUserTotalInRange d guild user clock
      = (λ w, #w) <$> ws ∧
    handleMyHours_weeks Part000.getUserTotalInRange d guild user clock
      = (λ w, #w) <$> ws ∧
    length ws = 8%nat ∧
    IndexJs.getUserTotalInRange d guild user
      (startMs r - 7 * 604800000) (endMs r) = #(foldr Z.add 0 ws) ∧
    Part000.getUserTotalInRange d guild user
      (startMs r - 7 * 604800000) (endMs r) = #(foldr Z.add 0 ws).
Proof.
  intros Hd Hr Hend.
  pose proof (λ x y, user_total_counted d guild user x y Hd) as Hu.
  exists ((λ i : nat,
             total_ms (filter (counted userId guild user
                                 (startMs r - Z.of_nat i * 604800000)
                                 (startMs r + 604800000
                                  - Z.of_nat i * 604800000)) d))
          <$> seq 0 8).
  assert (Hweeks : ∀ total,
    (∀ x y, total d guild user x y =
            #(total_ms (filter (counted userId guild user x y) d))) →
    handleMyHours_weeks total d guild user clock =
    (λ w, #w) <$>
      ((λ i : nat,
          total_ms (filter (counted userId guild user
                              (startMs r - Z.of_nat i * 604800000)
                              (startMs r + 604800000
                               - Z.of_nat i * 604800000)) d))
       <$> seq 0 8)).
  { intros total Htotal. unfold handleMyHours_weeks.
    rewrite <- list_fmap_compose. apply Forall_fmap_ext_1, Forall_forall.
    intros i Hi%elem_of_seq. unfold compose.
    unfold getWeekRangeForOffset. rewrite Hr by lia.
    cbn [startMs endMs]. rewrite Htotal, Hend.
    do 4 f_equal. }
  split_and!.
  - apply Hweeks. intros x y. apply Hu.
  - apply Hweeks. intros x y. apply Hu.
  - by rewrite length_fmap, length_seq.
  - rewrite (proj1 (Hu _ _)), Hend. f_equal. f_equal. symmetry.
    rewrite (counted_weeks userId guild user d (startMs r) 604800000 7)
      by lia.
    do 3 f_equal.
  - rewrite (proj2 (Hu _ _)), Hend. f_equal. f_equal. symmetry.
    rewrite (counted_weeks userId guild user d (startMs r) 604800000 7)
      by lia.
    do 3 f_equal.
Qed.

(** X18.  The weekly breakdown of [handleMyHours] adds up, whatever the
    host's calendar, as long as the week is 168 hours long: when the eight
    clock readings of the loop give the same week window [r] and [r] is
    seven days of 24 hours, the eight weekly figures are numbers, the same
    in both copies, and their sum is the user's total over the eight weeks
    that end with [r]; no closed session is counted twice or lost at a week
    boundary.  In general, consecutive week windows leave between them what
    the current week lacks of 168 hours, so in a week in which the clocks
    change they overlap or leave a gap. *)
Theorem X18_weekly_breakdown_adds_up `{LocalTime} d guild user
    (clock : nat → Z) r :
  Forall consistent d →
  (∀ i, (i < 8)%nat → getCurrentWeekRange (clock i) = r) →
  endMs r = startMs r + 604800000 →
  (∃ ws : list Z,
     handleMyHours_weeks IndexJs.getUserTotalInRange d guild user clock
       = (λ w, #w) <$> ws ∧
     handleMyHours_weeks Part000.getUserTotalInRange d guild user clock
       = (λ w, #w) <$> ws ∧
     length ws = 8%nat ∧
     IndexJs.getUserTotalInRange d guild user
       (startMs r - 7 * 604800000) (endMs r) = #(foldr Z.add 0 ws) ∧
     Part000.getUserTotalInRange d guild user
       (startMs r - 7 * 604800000) (endMs r) = #(foldr Z.add 0 ws)) ∧
  (∀ now k,
     startMs (getWeekRangeForOffset now k) -
     endMs (getWeekRangeForOffset now (k + 1)) =
       604800000 -
       (endMs (getCurrentWeekRange now) - startMs (getCurrentWeekRange now))).
Proof.
  intros Hd Hr Hend. split; [by apply weekly_breakdown|].
  intros now k. unfold getWeekRangeForOffset. cbn [startMs endMs]. lia.
Qed.

Lemma X18_witness :
  let d := [Session "s1" "g" "u" "d" 0 #1761400000000 #3600000
                    (JS.Bool false) JS.Null #0;
            Session "s2" "g" "u" "d" 0 #1762100000000 #7200000
                    (JS.Bool false) JS.Null #0] in
  let clock := λ _ : nat, 1762167600000 in
  let r := Range 1762041600000 1762646400000 in
  ∃ ws : list Z,
    @handleMyHours_weeks utc IndexJs.getUserTotalInRange d "g" "u" clock
      = (λ w, #w) <$> ws ∧
    @handleMyHours_weeks utc Part000.getUserTotalInRange d "g" "u" clock
      = (λ w, #w) <$> ws ∧
    length ws = 8%nat ∧
    IndexJs.getUserTotalInRange d "g" "u"
      (startMs r - 7 * 604800000) (endMs r) = #(foldr Z.add 0 ws) ∧
    Part000.getUserTotalInRange d "g" "u"
      (startMs r - 7 * 604800000) (endMs r) = #(foldr Z.add 0 ws).
Proof.
  intros d clock r.
  apply (@X18_weekly_breakdown_adds_up utc d "g" "u" clock r).
  - repeat constructor.
  - intros i _. vm_compute. reflexivity.
  - reflexivity.
Defined.

(** X19.  On a host whose local time is UTC the week is always 168 hours
    long: when the eight clock readings of the loop of [handleMyHours] fall
    in the week of the first one, the eight weekly figures add up to the
    user's total over the eight weeks that end with the current one. *)
Theorem X19_utc_weekly_breakdown d guild user (clock : nat → Z) :
  Forall consistent d →
  0 ≤ clock 0%nat → clock 0%nat + 604800000 ≤ 8640000000000000 →
  (∀ i, (i < 8)%nat →
        startMs (@getCurrentWeekRange utc (clock 0%nat)) ≤ clock i
        < endMs (@getCurrentWeekRange utc (clock 0%nat))) →
  ∃ ws : list Z,
    @handleMyHours_weeks utc IndexJs.getUserTotalInRange d guild user clock
      = (λ w, #w) <$> ws ∧
    @handleMyHours_weeks utc Part000.getUserTotalInRange d guild user clock
      = (λ w, #w) <$> ws ∧
    length ws = 8%nat ∧
    IndexJs.getUserTotalInRange d guild user
      (startMs (@getCurrentWeekRange utc (clock 0%nat)) - 7 * 604800000)
      (endMs (@getCurrentWeekRange utc (clock 0%nat)))
      = #(foldr Z.add 0 ws) ∧
    Part000.getUserTotalInRange d guild user
      (startMs (@getCurrentWeekRange utc (clock 0%nat)) - 7 * 604800000)
      (endMs (@getCurrentWeekRange utc (clock 0%nat)))
      = #(foldr Z.add 0 ws).
Proof.
  intros Hd H0 _ Hclock.
  apply (@weekly_breakdown utc); [done| |].
  - intros i Hi.
    destruct (utc_week_window (clock 0%nat) (clock i) H0) as (_&_&_&_& Hs).
    apply Hs, Hclock, Hi.
  - by destruct (utc_week_window (clock 0%nat) 0 H0) as (_ & ? & _).
Qed.

Lemma X19_witness :
  let d := [Session "s1" "g" "u" "d" 0 #1761400000000 #3600000
                    (JS.Bool false) JS.Null #0;
            Session "s2" "g" "u" "d" 0 #1762100000000 #7200000
                    (JS.Bool false) JS.Null #0] in
  let clock := λ i : nat, (1762167600000 + Z.of_nat i)%Z in
  ∃ ws : list Z,
    @handleMyHours_weeks utc IndexJs.getUserTotalInRange d "g" "u" clock
      = (λ w, #w) <$> ws ∧
    @handleMyHours_weeks utc Part000.getUserTotalInRange d "g" "u" clock
      = (λ w, #w) <$> ws ∧
    length ws = 8%nat ∧
    IndexJs.getUserTotalInRange d "g" "u"
      (startMs (@getCurrentWeekRange utc (clock 0%nat)) - 7 * 604800000)
      (endMs (@getCurrentWeekRange utc (clock 0%nat)))
      = #(foldr Z.add 0 ws) ∧
    Part000.getUserTotalInRange d "g" "u"
      (startMs (@getCurrentWeekRange utc (clock 0%nat)) - 7 * 604800000)
      (endMs (@getCurrentWeekRange utc (clock 0%nat)))
      = #(foldr Z.add 0 ws).
Proof.
  intros d clock.
  apply (X19_utc_weekly_breakdown d "g" "u" clock).
  - repeat constructor.
  - unfold clock. lia.
  - unfold clock. lia.
  - intros i Hi. unfold clock.
    replace (@getCurrentWeekRange utc (1762167600000 + Z.of_nat 0))
      with (Range 1762041600000 1762646400000) by (vm_compute; reflexivity).
    cbn [startMs endMs]. lia.
Defined.

End WeeklyBreakdown.

(** ** The two copies side by side *)

(** X20.  On consistent sessions the two copies answer every query alike:
    the all-time and the windowed total of a user, the windowed total of a
    department and its leaderboard, rows in the same order. *)
Theorem X20_copies_agree_on_queries d guild user dept startMs endMs :
  Forall consistent d →
  IndexJs.getUserTotalDuration d guild user =
    Part000.getUserTotalDuration d guild user ∧
  IndexJs.getUserTotalInRange d guild user startMs endMs =
    Part000.getUserTotalInRange d guild user startMs endMs ∧
  IndexJs.getDepartmentTotalInRange d guild dept startMs endMs =
    Part000.getDepartmentTotalInRange d guild dept startMs endMs ∧
  IndexJs.getDepartmentTotalsInRange d guild dept startMs endMs =
    Part000.getDepartmentTotalsInRange d guild dept startMs endMs.
Proof.
  intros Hd. split_and!.
  - reflexivity.
  - destruct (user_total_counted d guild user startMs endMs Hd) as [-> ->].
    done.
  - destruct (department_total_counted d guild dept startMs endMs Hd)
      as [-> ->].
    done.
  - rewrite IndexJs_totals_tally, Part000_totals_tally. do 2 f_equal.
    apply tally_ext. intros s Hs.
    assert (consistent s) by (by eapply Forall_forall in Hd).
    by rewrite in_index_js_counted, in_part_000_counted.
Qed.

Lemma X20_witness :
  let d := [Session "s1" "g" "A" "d" 0 #2000 #2000 (JS.Bool false)
                    JS.Null #0;
            Session "s2" "g" "B" "d" 0 #10000 #10000 (JS.Bool false)
                    JS.Null #0;
            Session "s3" "g" "A" "d" 3000 JS.Null JS.Null (JS.Bool false)
                    JS.Null #0] in
  IndexJs.getUserTotalDuration d "g" "A" =
    Part000.getUserTotalDuration d "g" "A" ∧
  IndexJs.getUserTotalInRange d "g" "A" 0 20000 =
    Part000.getUserTotalInRange d "g" "A" 0 20000 ∧
  IndexJs.getDepartmentTotalInRange d "g" "d" 0 20000 =
    Part000.getDepartmentTotalInRange d "g" "d" 0 20000 ∧
  IndexJs.getDepartmentTotalsInRange d "g" "d" 0 20000 =
    Part000.getDepartmentTotalsInRange d "g" "d" 0 20000.
Proof.
  intros d. apply (X20_copies_agree_on_queries d "g" "A" "d" 0 20000).
  repeat constructor.
Defined.

(** X21.  Where they part: a record that carries a duration but no
    [clockOut].  [index.js] compares the missing [clockOut] as the number 0,
    so in a window around time 0 it adds the record's duration to the user's
    total; [part_000] checks [clockOut] first and never counts the
    record. *)
Theorem X21_duration_without_clock_out d s guild user startMs endMs z :
  guildId s = guild → userId s = user →
  duration s = #z → clockOut s = JS.Null → (startMs ≤ 0 < endMs)%Z →
  IndexJs.getUserTotalInRange (d ++ [s]) guild user startMs endMs =
    JS.add (IndexJs.getUserTotalInRange d guild user startMs endMs) #z ∧
  Part000.getUserTotalInRange (d ++ [s]) guild user startMs endMs =
    Part000.getUserTotalInRange d guild user startMs endMs.
Proof.
  intros Hg Hu Hdur Hco Hwin. split.
  - unfold IndexJs.getUserTotalInRange.
    rewrite filter_app, filter_cons_True, filter_nil, foldl_app; cycle 1.
    { rewrite Hdur, Hco. unfold JS.ge, JS.lt. simpl.
      split_and!; [done..| |]; [apply Z.leb_le|apply Z.ltb_lt]; lia. }
    simpl. by rewrite Hdur.
  - unfold Part000.getUserTotalInRange. rewrite foldl_app. simpl.
    rewrite Hco, Hdur, Hg, Hu. simpl.
    by rewrite !bool_decide_eq_false_2 by (intros ?; done).
Qed.

Lemma X21_witness :
  let s := Session "s9" "g" "u" "d" 0 JS.Null #5000 (JS.Bool false)
                   JS.Null #0 in
  IndexJs.getUserTotalInRange ([] ++ [s]) "g" "u" (-1000) 1000 =
    JS.add (IndexJs.getUserTotalInRange [] "g" "u" (-1000) 1000) #5000 ∧
  Part000.getUserTotalInRange ([] ++ [s]) "g" "u" (-1000) 1000 =
    Part000.getUserTotalInRange [] "g" "u" (-1000) 1000.
Proof.
  intros s.
  apply (X21_duration_without_clock_out [] s "g" "u" (-1000) 1000 5000);
    first [reflexivity|lia].
Defined.
